(** * Streaming chat state machine of foundry-agent-webapp

    A shallow embedding of the frontend's state reducer ([appReducer],
    reducers/appReducer.ts) and of the chat service that feeds it
    ([ChatService.sendMessage] and [ChatService.processStream]), with the
    properties of the streaming protocol proved about them.

    Conventions of the embedding:
    - a TypeScript [string | null] or optional [string] is an [option string];
      JavaScript truthiness of such a value ([a || b], [!a]) is written out by
      [truthy]: [null], [undefined] and the empty string are falsy;
    - an object literal with a spread ([{...state, chat: {...}}]) is a record
      literal that copies the untouched fields;
    - [dispatch(action)] appends the action to the list of emitted intents;
    - numbers carried by the wire protocol are only copied, never computed
      with, and are integers ([Z]). *)

From Stdlib Require Import ZArith Ascii.
From stdpp Require Import base option list strings pretty.

Local Open Scope string_scope.
Local Open Scope list_scope.

(** ** Data model (types/chat, types/errors, types/appState) *)

Definition JsNumber := Z.

(** The MSAL account record is opaque to this code: it is stored and never
    inspected. It is represented by the account's name. *)
Definition AccountInfo := string.

(** A browser [File] as far as the service is concerned: it is handed to
    [convertFilesToDataUris] and never inspected. *)
Record File := { file_name : string; file_type : string }.

(** Attachment metadata shown by the UI; built by [createAttachmentMetadata]
    and only stored in the message. *)
Record Attachment := { att_fileName : string; att_mimeType : string }.

Inductive Role := RoleUser | RoleAssistant | RoleApproval.

Record IAnnotation := {
  ann_type : string;
  ann_label : string;
  ann_url : option string;
  ann_fileId : option string;
  ann_startIndex : JsNumber;
  ann_endIndex : JsNumber;
  ann_quote : option string;
}.

Record IUsageInfo := {
  promptTokens : JsNumber;
  completionTokens : JsNumber;
  totalTokens : JsNumber;
  usage_duration : JsNumber;
}.

Record IMcpApprovalRequest := {
  req_id : string;
  req_toolName : string;
  req_serverLabel : string;
  req_arguments : option string;
}.

(** The [mcpApproval] member of an approval message: the request's own
    fields (object spread) and [previousResponseId]. *)
Record McpApproval := {
  mcp_id : string;
  mcp_toolName : string;
  mcp_serverLabel : string;
  mcp_arguments : option string;
  mcp_previousResponseId : string;
}.

Record MoreInfo := {
  more_time : option string;
  more_usage : option IUsageInfo;
}.

Record IChatItem := {
  msg_id : string;
  msg_role : Role;
  msg_content : string;
  msg_attachments : option (list Attachment);
  msg_more : option MoreInfo;
  msg_annotations : option (list IAnnotation);
  msg_mcpApproval : option McpApproval;
  msg_duration : option JsNumber;
}.

(** The retry closure [() => this.sendMessage(messageText,
    currentConversationId, files, previousResponseId)] is the record of the
    arguments it captures. *)
Record RetryAction := {
  retry_messageText : string;
  retry_currentConversationId : option string;
  retry_files : option (list File);
  retry_previousResponseId : option string;
}.

(** Modelled from the spec: the [AppError] interface of types/errors, which
    is not among the sources. Section 7: each error carries a kind, a human
    message, [recoverable : bool] and an optional zero-argument retry
    action. The reducer reads [recoverable] only. *)
Record AppError := {
  err_code : string;
  err_message : string;
  recoverable : bool;
  err_action : option RetryAction;
}.

Inductive AuthStatus :=
  AuthInitializing | AuthAuthenticated | AuthUnauthenticated | AuthError.

Inductive ChatStatus := Idle | Sending | Streaming | ChatError.

Record AuthState := {
  auth_status : AuthStatus;
  auth_user : option AccountInfo;
  auth_error : option string;
}.

Record ChatState := {
  chat_status : ChatStatus;
  messages : list IChatItem;
  currentConversationId : option string;
  lastResponseId : option string;
  chat_error : option AppError;
  streamingMessageId : option string;
}.

Record UiState := { chatInputEnabled : bool }.

Record AppState := {
  auth : AuthState;
  chat : ChatState;
  ui : UiState;
}.

Inductive AppAction :=
| AUTH_INITIALIZED (user : AccountInfo)
| AUTH_TOKEN_EXPIRED
| CHAT_SEND_MESSAGE (message : IChatItem)
| CHAT_START_STREAM (conversationId : option string) (messageId : string)
| CHAT_STREAM_CHUNK (messageId : string) (content : string)
| CHAT_STREAM_ANNOTATIONS (messageId : string) (annotations : list IAnnotation)
| CHAT_MCP_APPROVAL_REQUEST (messageId : string)
    (approvalRequest : IMcpApprovalRequest) (previousResponseId : option string)
| CHAT_STREAM_COMPLETE (usage : IUsageInfo) (responseId : option string)
| CHAT_CANCEL_STREAM
| CHAT_ERROR (error : AppError)
| CHAT_CLEAR_ERROR
| CHAT_CLEAR
| CHAT_ADD_ASSISTANT_MESSAGE (messageId : string).

Definition initialAppState : AppState :=
  {| auth := {| auth_status := AuthInitializing; auth_user := None;
                auth_error := None |};
     chat := {| chat_status := Idle; messages := [];
                currentConversationId := None; lastResponseId := None;
                chat_error := None; streamingMessageId := None |};
     ui := {| chatInputEnabled := true |} |}.

(** ** JavaScript truthiness on optional strings *)

Definition truthy (a : option string) : bool :=
  match a with
  | Some s => if decide (s = "") then false else true
  | None => false
  end.

(** [a || b] on [string | null | undefined] operands. *)
Definition jsOr (a b : option string) : option string :=
  if truthy a then a else b.

(** [a || ''] *)
Definition jsOrEmpty (a : option string) : string :=
  match a with
  | Some s => s
  | None => ""
  end.

(** ** The reducer *)

(** What a [case] of the reducer hands back: the very object it received
    ([return state]) or a freshly built one. *)
Inductive Returned :=
| SameState
| NewState (s : AppState).

(** [messages.findIndex(msg => msg.id === messageId)]; [None] is [-1]. *)
Definition findIndex (messageId : string) (msgs : list IChatItem)
  : option (nat * IChatItem) :=
  list_find (λ msg, msg_id msg = messageId) msgs.

Definition withContent (m : IChatItem) (c : string) : IChatItem :=
  {| msg_id := msg_id m; msg_role := msg_role m; msg_content := c;
     msg_attachments := msg_attachments m; msg_more := msg_more m;
     msg_annotations := msg_annotations m;
     msg_mcpApproval := msg_mcpApproval m; msg_duration := msg_duration m |}.

Definition withAnnotations (m : IChatItem) (a : list IAnnotation) : IChatItem :=
  {| msg_id := msg_id m; msg_role := msg_role m; msg_content := msg_content m;
     msg_attachments := msg_attachments m; msg_more := msg_more m;
     msg_annotations := Some a;
     msg_mcpApproval := msg_mcpApproval m; msg_duration := msg_duration m |}.

(** [{...msg, more: {...msg.more, usage}, duration: usage.duration}];
    spreading an absent [more] contributes no field. *)
Definition withUsage (m : IChatItem) (u : IUsageInfo) : IChatItem :=
  {| msg_id := msg_id m; msg_role := msg_role m; msg_content := msg_content m;
     msg_attachments := msg_attachments m;
     msg_more := Some {| more_time := m.(msg_more) ≫= more_time;
                         more_usage := Some u |};
     msg_annotations := msg_annotations m;
     msg_mcpApproval := msg_mcpApproval m;
     msg_duration := Some (usage_duration u) |}.

Definition approvalMessage (messageId : string) (r : IMcpApprovalRequest)
    (previousResponseId : option string) : IChatItem :=
  {| msg_id := "approval-" +:+ messageId;
     msg_role := RoleApproval;
     msg_content := "";
     msg_attachments := None; msg_more := None; msg_annotations := None;
     msg_mcpApproval :=
       Some {| mcp_id := req_id r; mcp_toolName := req_toolName r;
               mcp_serverLabel := req_serverLabel r;
               mcp_arguments := req_arguments r;
               mcp_previousResponseId := jsOrEmpty previousResponseId |};
     msg_duration := None |}.

Definition assistantPlaceholder (messageId now : string) : IChatItem :=
  {| msg_id := messageId; msg_role := RoleAssistant; msg_content := "";
     msg_attachments := None;
     msg_more := Some {| more_time := Some now; more_usage := None |};
     msg_annotations := None; msg_mcpApproval := None; msg_duration := None |}.

(** [appReducerRef now state action]: the [switch] of [appReducer].
    [now] is the value [new Date().toISOString()] reads from the clock, the
    one input of the reducer besides its two arguments. *)
Definition appReducerRef (now : string) (state : AppState) (action : AppAction)
  : Returned :=
  let c := chat state in
  match action with
  | AUTH_INITIALIZED user =>
      NewState
        {| auth := {| auth_status := AuthAuthenticated; auth_user := Some user;
                      auth_error := None |};
           chat := c; ui := ui state |}
  | AUTH_TOKEN_EXPIRED =>
      NewState
        {| auth := {| auth_status := AuthUnauthenticated;
                      auth_user := auth_user (auth state);
                      auth_error := auth_error (auth state) |};
           chat := c; ui := ui state |}
  | CHAT_SEND_MESSAGE message =>
      NewState
        {| auth := auth state;
           chat := {| chat_status := Sending;
                      messages := messages c ++ [message];
                      currentConversationId := currentConversationId c;
                      lastResponseId := lastResponseId c;
                      chat_error := chat_error c;
                      streamingMessageId := streamingMessageId c |};
           ui := ui state |}
  | CHAT_ADD_ASSISTANT_MESSAGE messageId =>
      NewState
        {| auth := auth state;
           chat := {| chat_status := chat_status c;
                      messages := messages c ++ [assistantPlaceholder messageId now];
                      currentConversationId := currentConversationId c;
                      lastResponseId := lastResponseId c;
                      chat_error := chat_error c;
                      streamingMessageId := streamingMessageId c |};
           ui := ui state |}
  | CHAT_START_STREAM conversationId messageId =>
      NewState
        {| auth := auth state;
           chat := {| chat_status := Streaming;
                      messages := messages c;
                      currentConversationId :=
                        jsOr conversationId (currentConversationId c);
                      lastResponseId := lastResponseId c;
                      chat_error := None;
                      streamingMessageId := Some messageId |};
           ui := {| chatInputEnabled := false |} |}
  | CHAT_STREAM_CHUNK messageId content =>
      match findIndex messageId (messages c) with
      | None => SameState
      | Some (messageIndex, msg) =>
          let updatedMessages :=
            <[messageIndex := withContent msg (msg_content msg +:+ content)]>
              (messages c) in
          NewState
            {| auth := auth state;
               chat := {| chat_status := chat_status c;
                          messages := updatedMessages;
                          currentConversationId := currentConversationId c;
                          lastResponseId := lastResponseId c;
                          chat_error := chat_error c;
                          streamingMessageId := streamingMessageId c |};
               ui := ui state |}
      end
  | CHAT_STREAM_ANNOTATIONS messageId annotations =>
      match findIndex messageId (messages c) with
      | None => SameState
      | Some (messageIndex, msg) =>
          let existingAnnotations := default [] (msg_annotations msg) in
          let updatedMessages :=
            <[messageIndex := withAnnotations msg (existingAnnotations ++ annotations)]>
              (messages c) in
          NewState
            {| auth := auth state;
               chat := {| chat_status := chat_status c;
                          messages := updatedMessages;
                          currentConversationId := currentConversationId c;
                          lastResponseId := lastResponseId c;
                          chat_error := chat_error c;
                          streamingMessageId := streamingMessageId c |};
               ui := ui state |}
      end
  | CHAT_MCP_APPROVAL_REQUEST messageId approvalRequest previousResponseId =>
      NewState
        {| auth := auth state;
           chat := {| chat_status := Idle;
                      messages :=
                        messages c ++
                        [approvalMessage messageId approvalRequest previousResponseId];
                      currentConversationId := currentConversationId c;
                      lastResponseId := lastResponseId c;
                      chat_error := chat_error c;
                      streamingMessageId := streamingMessageId c |};
           ui := {| chatInputEnabled := false |} |}
  | CHAT_STREAM_COMPLETE usage responseId =>
      let updatedMessages :=
        (λ msg, if decide (Some (msg_id msg) = streamingMessageId c)
                then withUsage msg usage else msg) <$> messages c in
      NewState
        {| auth := auth state;
           chat := {| chat_status := Idle;
                      messages := updatedMessages;
                      currentConversationId := currentConversationId c;
                      lastResponseId := jsOr responseId (lastResponseId c);
                      chat_error := chat_error c;
                      streamingMessageId := None |};
           ui := {| chatInputEnabled := true |} |}
  | CHAT_CANCEL_STREAM =>
      NewState
        {| auth := auth state;
           chat := {| chat_status := Idle;
                      messages := messages c;
                      currentConversationId := currentConversationId c;
                      lastResponseId := lastResponseId c;
                      chat_error := chat_error c;
                      streamingMessageId := None |};
           ui := {| chatInputEnabled := true |} |}
  | CHAT_ERROR error =>
      NewState
        {| auth := auth state;
           chat := {| chat_status := ChatError;
                      messages := messages c;
                      currentConversationId := currentConversationId c;
                      lastResponseId := lastResponseId c;
                      chat_error := Some error;
                      streamingMessageId := None |};
           ui := {| chatInputEnabled := recoverable error |} |}
  | CHAT_CLEAR_ERROR =>
      NewState
        {| auth := auth state;
           chat := {| chat_status := Idle;
                      messages := messages c;
                      currentConversationId := currentConversationId c;
                      lastResponseId := lastResponseId c;
                      chat_error := None;
                      streamingMessageId := streamingMessageId c |};
           ui := {| chatInputEnabled := true |} |}
  | CHAT_CLEAR =>
      NewState
        {| auth := auth state;
           chat := {| chat_status := Idle;
                      messages := [];
                      currentConversationId := None;
                      lastResponseId := None;
                      chat_error := None;
                      streamingMessageId := None |};
           ui := {| chatInputEnabled := true |} |}
  end.

(** The state the reducer returns. *)
Definition appReducer (now : string) (state : AppState) (action : AppAction)
  : AppState :=
  match appReducerRef now state action with
  | SameState => state
  | NewState s => s
  end.

(** ** Values that can be thrown *)

(** What a [catch] clause of the service can receive: a [DOMException]
    (an [Error] instance that has the legacy [code] member), any other
    [Error] instance, or an [AppError] built by [createAppError]. *)
Inductive Thrown :=
| DOMException (name : string) (message : string)
| JsError (message : string) (hasCode : bool)
| ThrownAppError (e : AppError).

(** [error instanceof DOMException && error.name === 'AbortError'] *)
Definition isAbortError (e : Thrown) : bool :=
  match e with
  | DOMException name _ => bool_decide (name = "AbortError")
  | _ => false
  end.

(** How a [try] body, an awaited promise or a call ends. *)
Inductive Completion (A : Type) :=
| Normal (a : A)
| Throws (e : Thrown).
Arguments Normal {A} a.
Arguments Throws {A} e.

(** ** Server-sent events *)

(** The [error] member of an event's [data], when present: a string or an
    object with an optional [message]. *)
Inductive ErrorField :=
| ErrString (s : string)
| ErrObject (message : option string).

(** An event's [type] with the members of [data] the [switch] of
    [processStream] reads for that type; [EvOther] is a type without a
    [case]. *)
Inductive EventPayload :=
| EvConversationId (conversationId : option string)
| EvChunk (content : string)
| EvAnnotations (annotations : option (list IAnnotation))
| EvMcpApprovalRequest (approvalRequest : option IMcpApprovalRequest)
| EvUsage (usage : IUsageInfo) (responseId : option string)
| EvDone
| EvError (message : option string)
| EvOther (type : string).

(** Modelled from the spec: the event record [parseSseLine] returns
    (utils/sseParser is not among the sources), after section 6's event
    catalogue and the members [processStream] reads: [payload] is
    [event.type] with the fields of [event.data] that type carries,
    [data_error] is [event.data?.error]. *)
Record SseEvent := {
  data_error : option ErrorField;
  payload : EventPayload;
}.

Record DataUriResult := {
  dataUri : string;
  uri_name : string;
  mimeType : string;
}.

(** The functions the service imports from utils/errorHandler,
    utils/fileAttachments, utils/sseParser and types/errors, none of which is
    among the sources, and two facts about the objects they build that
    TypeScript erases. *)
Class Imports := {
  createAppError : Thrown → option string → option RetryAction → AppError;
  isAppError : Thrown → bool;
  isTokenExpiredError : Thrown → bool;
  getErrorCodeFromMessage : Thrown → string;
  convertFilesToDataUris : list File → Completion (list DataUriResult);
  createAttachmentMetadata : list DataUriResult → option (list Attachment);
  parseSseLine : string → option SseEvent;
  splitSseBuffer : string → list string * string;
  (** whether the object [createAppError] builds is an [Error] instance
      (it has a [code] member either way) *)
  appErrorIsError : bool;
  (** the fields the reducer finds on a caught error object that is passed
      on as an [AppError] without having been built by [createAppError]
      (the unchecked [as AppError] and the [isAppError] type guard) *)
  castAppError : Thrown → AppError;
}.

(** ** The service: state, environment and effects *)

Record AbortController := { aborted : bool }.

Record ServiceState := {
  currentStreamAbort : option AbortController;
  streamCancelled : bool;
}.

(** A method of the service: it reads and writes the service's fields,
    dispatches intents, and returns or throws. *)
Definition M (A : Type) : Type :=
  ServiceState → list AppAction * ServiceState * Completion A.

Definition ret {A} (a : A) : M A := λ σ, ([], σ, Normal a).

Definition bind {A B} (m : M A) (k : A → M B) : M B := λ σ,
  match m σ with
  | (acts, σ', Normal a) =>
      match k a σ' with (acts', σ'', r) => (acts ++ acts', σ'', r) end
  | (acts, σ', Throws e) => (acts, σ', Throws e)
  end.

#[local] Instance M_ret : MRet M := @ret.
#[local] Instance M_bind : MBind M := λ A B k m, bind m k.

Definition dispatch (a : AppAction) : M unit := λ σ, ([a], σ, Normal ()).

Definition throw {A} (e : Thrown) : M A := λ σ, ([], σ, Throws e).

(** [try { m } catch (error) { h error }] *)
Definition tryCatch {A} (m : M A) (h : Thrown → M A) : M A := λ σ,
  match m σ with
  | (acts, σ', Normal a) => (acts, σ', Normal a)
  | (acts, σ', Throws e) =>
      match h e σ' with (acts', σ'', r) => (acts ++ acts', σ'', r) end
  end.

(** The outcome of an awaited promise. *)
Definition await {A} (r : Completion A) : M A := λ σ, ([], σ, r).

Definition getCurrentStreamAbort : M (option AbortController) :=
  λ σ, ([], σ, Normal (currentStreamAbort σ)).

Definition setCurrentStreamAbort (c : option AbortController) : M unit :=
  λ σ, ([], {| currentStreamAbort := c; streamCancelled := streamCancelled σ |},
        Normal ()).

Definition setStreamCancelled (b : bool) : M unit :=
  λ σ, ([], {| currentStreamAbort := currentStreamAbort σ; streamCancelled := b |},
        Normal ()).

(** While a method is suspended in an [await], [cancelStream] or another
    [sendMessage] may run and assign [streamCancelled]: [w] is the value
    assigned, if any. Only that assignment is followed, here and in
    [flagWrite] below: it is all the suspended method reads. What such a
    call does to [currentStreamAbort] (abort it, replace it, clear it) is
    not; the final controller of a call is therefore stated for undisturbed
    runs only, in which no such call happens. *)
Definition interleaved (w : option bool) : M unit :=
  match w with
  | Some b => setStreamCancelled b
  | None => ret ()
  end.

(** One [reader.read()] that does not report [done]: the text
    [decoder.decode(value, {stream: true})] yields, or the error the read
    rejects with; and the assignment to [streamCancelled] made while the
    read was pending. The end of the list of reads is [done]. *)
Inductive ReadResult :=
| ReadValue (chunk : string)
| ReadThrows (e : Thrown).

Record ReadStep := {
  flagWrite : option bool;
  readResult : ReadResult;
}.

(** A [Response]: [response.body?.getReader()], if there is a body. *)
Record Response := { body : option (list ReadStep) }.

Record RequestBody := {
  rb_message : string;
  rb_conversationId : option string;
  rb_imageDataUris : option (list string);
  rb_fileDataUris : option (list (string * string * string));
  rb_previousResponseId : option string;
}.

(** What the surroundings of one [sendMessage] call supply: the token
    provider's answer, the clock, the outcome of the awaited
    [retryWithBackoff(() => this.initiateStream(...), 3, 1000)] for a given
    url, token and body, and the assignment to [streamCancelled] made while
    that request was pending. *)
Record Env := {
  apiUrl : string;
  getAccessToken : Completion (option string);
  dateNow1 : N;
  dateNow2 : N;
  isoTime : string;
  initiate : string → string → RequestBody → Completion Response;
  flagWriteDuringRequest : option bool;
}.

(** ** ChatService *)

Section ChatService.
Context `{Imports}.

(** [error as AppError]: an error built by [createAppError] is itself;
    anything else is read through the erased cast. *)
Definition asAppError (e : Thrown) : AppError :=
  match e with
  | ThrownAppError a => a
  | _ => castAppError e
  end.

(** [error instanceof Error && 'code' in error] *)
Definition isErrorWithCode (e : Thrown) : bool :=
  match e with
  | DOMException _ _ => true
  | JsError _ hasCode => hasCode
  | ThrownAppError _ => appErrorIsError
  end.

(** [error instanceof Error ? error.message : String(error)] *)
Definition errorText (e : Thrown) : string :=
  match e with
  | DOMException _ message => message
  | JsError message _ => message
  | ThrownAppError a =>
      if appErrorIsError then err_message a else "[object Object]"
  end.

(** A [string | null | undefined] inside a template literal. *)
Definition interpolate (null : string) (a : option string) : string :=
  match a with
  | Some s => s
  | None => null
  end.

(** [createAppError(new Error(message), 'STREAM')] *)
Definition streamError (message : string) : AppError :=
  createAppError (JsError message false) (Some "STREAM") None.

(** [ensureAuthToken] *)
Definition ensureAuthToken (env : Env) : M string :=
  token ← await (getAccessToken env);
  if truthy token then mret (jsOrEmpty token)
  else throw (ThrownAppError
                (createAppError (JsError "Failed to acquire access token" false)
                   (Some "AUTH") None)).

Record MessagePayload := {
  pl_content : string;
  pl_imageDataUris : list string;
  pl_fileDataUris : list (string * string * string);
  pl_attachments : option (list Attachment);
}.

Definition isImage (r : DataUriResult) : bool :=
  String.prefix "image/" (mimeType r).

(** [prepareMessagePayload] *)
Definition prepareMessagePayload (text : string) (files : option (list File))
  : M MessagePayload :=
  match files with
  | Some (f :: fs) =>
      tryCatch
        (results ← await (convertFilesToDataUris (f :: fs));
         let imageResults := filter (λ r, isImage r = true) results in
         let fileResults := filter (λ r, isImage r ≠ true) results in
         mret {| pl_content := text;
                 pl_imageDataUris := dataUri <$> imageResults;
                 pl_fileDataUris :=
                   (λ r, (dataUri r, uri_name r, mimeType r)) <$> fileResults;
                 pl_attachments := createAttachmentMetadata results |})
        (λ error,
           let appError := createAppError error None None in
           dispatch (CHAT_ERROR appError);;
           throw (ThrownAppError appError))
  | _ =>
      mret {| pl_content := text; pl_imageDataUris := [];
              pl_fileDataUris := []; pl_attachments := None |}
  end.

Definition nonEmpty {A} (l : list A) : option (list A) :=
  match l with
  | [] => None
  | _ => Some l
  end.

(** [constructRequestBody] *)
Definition constructRequestBody (message : string)
    (conversationId : option string) (imageDataUris : list string)
    (fileDataUris : list (string * string * string))
    (previousResponseId : option string) : RequestBody :=
  {| rb_message := message;
     rb_conversationId := conversationId;
     rb_imageDataUris := nonEmpty imageDataUris;
     rb_fileDataUris := nonEmpty fileDataUris;
     rb_previousResponseId := jsOr previousResponseId None |}.

(** *** processStream *)

(** The locals of [processStream] the [switch] reads and assigns. *)
Record LoopVars := {
  newConversationId : option string;
  lastChunkContent : option string;
}.

(** How the body of the [for] loop leaves an event: on to the next one,
    [return] (the [done] event), or [throw]. *)
Inductive Step :=
| Continue (v : LoopVars)
| ReturnDone
| Throw (e : Thrown).

(** [event.data?.error] is truthy. *)
Definition truthyError (err : option ErrorField) : bool :=
  match err with
  | Some (ErrString s) => truthy (Some s)
  | Some (ErrObject _) => true
  | None => false
  end.

(** [event.data.error.message || event.data.error || 'Stream error occurred']
    as the message [new Error] gives it, for a truthy [event.data.error]. *)
Definition dataErrorMessage (err : option ErrorField) : string :=
  match err with
  | Some (ErrString s) => s
  | Some (ErrObject message) =>
      if truthy message then jsOrEmpty message else "[object Object]"
  | None => "Stream error occurred"
  end.

(** The body of [for (const line of lines)] for a parsed event. *)
Definition handleEvent (messageId : string) (v : LoopVars) (event : SseEvent)
  : list AppAction * Step :=
  if truthyError (data_error event) then
    let error := streamError (dataErrorMessage (data_error event)) in
    ([CHAT_ERROR error], Throw (ThrownAppError error))
  else
    match payload event with
    | EvConversationId conversationId =>
        if truthy (newConversationId v) then ([], Continue v)
        else
          ([CHAT_START_STREAM conversationId messageId],
           Continue {| newConversationId := conversationId;
                       lastChunkContent := lastChunkContent v |})
    | EvChunk content =>
        if decide (Some content = lastChunkContent v) then ([], Continue v)
        else
          ([CHAT_STREAM_CHUNK messageId content],
           Continue {| newConversationId := newConversationId v;
                       lastChunkContent := Some content |})
    | EvAnnotations (Some (a :: l)) =>
        ([CHAT_STREAM_ANNOTATIONS messageId (a :: l)], Continue v)
    | EvAnnotations _ => ([], Continue v)
    | EvMcpApprovalRequest (Some approvalRequest) =>
        ([CHAT_MCP_APPROVAL_REQUEST messageId approvalRequest
            (newConversationId v)],
         Continue v)
    | EvMcpApprovalRequest None => ([], Continue v)
    | EvUsage usage responseId =>
        ([CHAT_STREAM_COMPLETE usage responseId], Continue v)
    | EvDone => ([], ReturnDone)
    | EvError message =>
        let error :=
          streamError ("Stream error for message " +:+ messageId +:+ ": "
                       +:+ interpolate "undefined" message) in
        ([CHAT_ERROR error], Throw (ThrownAppError error))
    | EvOther _ => ([], Continue v)
    end.

(** [for (const line of lines) { ... }] *)
Fixpoint processLines (messageId : string) (v : LoopVars) (lines : list string)
  : list AppAction * Step :=
  match lines with
  | [] => ([], Continue v)
  | line :: rest =>
      match parseSseLine line with
      | None => processLines messageId v rest
      | Some event =>
          match handleEvent messageId v event with
          | (acts, Continue v') =>
              let '(acts', s) := processLines messageId v' rest in
              (acts ++ acts', s)
          | r => r
          end
      end
  end.

(** The [catch] block of [processStream], entered with [streamCancelled]
    equal to [cancelled]. *)
Definition catchBlock (messageId : string) (currentConversationId : option string)
    (cancelled : bool) (error : Thrown) : list AppAction * Completion unit :=
  if isAbortError error && cancelled then ([], Normal ())
  else
    let appError :=
      if isErrorWithCode error then asAppError error
      else
        streamError ("Stream processing failed: " +:+ errorText error
                     +:+ " (Conversation: "
                     +:+ interpolate "null" currentConversationId
                     +:+ ", Message: " +:+ messageId +:+ ")") in
    ([CHAT_ERROR appError], Throws error).

(** Where the [while (true)] loop stands between two iterations: still
    running, with the flag, the locals and the buffer; or left, with the
    flag and the way [processStream] completes. *)
Inductive LoopState :=
| Running (cancelled : bool) (v : LoopVars) (buffer : string)
| Exited (cancelled : bool) (r : Completion unit).

(** One pass through the body of [while (true)], the pending read being
    [r]. A set flag breaks out before the read is issued. *)
Definition iteration (messageId : string) (currentConversationId : option string)
    (st : LoopState) (r : ReadStep) : list AppAction * LoopState :=
  match st with
  | Exited _ _ => ([], st)
  | Running true _ _ => ([], Exited true (Normal ()))
  | Running false v buffer =>
      let cancelled := default false (flagWrite r) in
      match readResult r with
      | ReadThrows e =>
          let '(acts, c) := catchBlock messageId currentConversationId cancelled e in
          (acts, Exited cancelled c)
      | ReadValue chunk =>
          let '(lines, remaining) := splitSseBuffer (buffer +:+ chunk) in
          match processLines messageId v lines with
          | (acts, Continue v') => (acts, Running cancelled v' remaining)
          | (acts, ReturnDone) => (acts, Exited cancelled (Normal ()))
          | (acts, Throw e) =>
              let '(acts', c) :=
                catchBlock messageId currentConversationId cancelled e in
              (acts ++ acts', Exited cancelled c)
          end
      end
  end.

(** The loop over the reads the body delivers. *)
Fixpoint readLoop (messageId : string) (currentConversationId : option string)
    (st : LoopState) (reads : list ReadStep) : list AppAction * LoopState :=
  match reads with
  | [] => ([], st)
  | r :: rest =>
      let '(acts, st') := iteration messageId currentConversationId st r in
      let '(acts', st'') := readLoop messageId currentConversationId st' rest in
      (acts ++ acts', st'')
  end.

(** After the last read: [done] (or the flag) breaks out of a loop that is
    still running, and [processStream] returns. *)
Definition loopEnd (st : LoopState) : bool * Completion unit :=
  match st with
  | Running cancelled _ _ => (cancelled, Normal ())
  | Exited cancelled r => (cancelled, r)
  end.

(** The locals of [processStream] on entry to the loop. *)
Definition loopStart (cancelled : bool) (currentConversationId : option string)
  : LoopState :=
  Running cancelled
    {| newConversationId := currentConversationId; lastChunkContent := None |}
    "".

(** [processStream]. The [finally] clause releases the reader's lock and
    swallows a failure to do so: no intent and no outcome depends on it. *)
Definition processStream (response : Response) (messageId : string)
    (currentConversationId : option string) : M unit :=
  match body response with
  | None =>
      let error :=
        streamError ("Response body is not readable for message " +:+ messageId) in
      dispatch (CHAT_ERROR error);;
      throw (ThrownAppError error)
  | Some reads => λ σ,
      let start := loopStart (streamCancelled σ) currentConversationId in
      let '(acts, st) := readLoop messageId currentConversationId start reads in
      let '(cancelled, r) := loopEnd st in
      (acts,
       {| currentStreamAbort := currentStreamAbort σ;
          streamCancelled := cancelled |},
       r)
  end.

(** *** sendMessage *)

Definition sendMessage (env : Env) (messageText : string)
    (currentConversationId : option string) (files : option (list File))
    (previousResponseId : option string) : M unit :=
  active ← getCurrentStreamAbort;
  match active with
  | Some _ =>
      setStreamCancelled true;;
      setCurrentStreamAbort (Some {| aborted := true |});;
      dispatch CHAT_CANCEL_STREAM
  | None => mret ()
  end;;
  tryCatch
    (token ← ensureAuthToken env;
     p ← prepareMessagePayload messageText files;
     let userMessage :=
       {| msg_id := pretty (dateNow1 env);
          msg_role := RoleUser;
          msg_content := pl_content p;
          msg_attachments := pl_attachments p;
          msg_more := Some {| more_time := Some (isoTime env);
                              more_usage := None |};
          msg_annotations := None; msg_mcpApproval := None;
          msg_duration := None |} in
     dispatch (CHAT_SEND_MESSAGE userMessage);;
     let assistantMessageId := pretty (dateNow2 env + 1)%N in
     dispatch (CHAT_ADD_ASSISTANT_MESSAGE assistantMessageId);;
     dispatch (CHAT_START_STREAM (jsOr currentConversationId None)
                 assistantMessageId);;
     setCurrentStreamAbort (Some {| aborted := false |});;
     setStreamCancelled false;;
     let requestBody :=
       constructRequestBody messageText currentConversationId
         (pl_imageDataUris p) (pl_fileDataUris p) previousResponseId in
     interleaved (flagWriteDuringRequest env);;
     response ← await (initiate env (apiUrl env +:+ "/chat/stream") token requestBody);
     processStream response assistantMessageId currentConversationId;;
     setCurrentStreamAbort None;;
     setStreamCancelled false)
    (λ error,
       if isAbortError error then mret ()
       else
         (if isTokenExpiredError error then dispatch AUTH_TOKEN_EXPIRED
          else mret ());;
         let appError :=
           if isAppError error then asAppError error
           else
             createAppError error (Some (getErrorCodeFromMessage error))
               (Some {| retry_messageText := messageText;
                        retry_currentConversationId := currentConversationId;
                        retry_files := files;
                        retry_previousResponseId := previousResponseId |}) in
         dispatch (CHAT_ERROR appError);;
         throw error).

(** *** Notions the statements below use *)

(** A body that delivers the text increments [chunks] one read at a time,
    no read failing and nobody cancelling. *)
Definition valueReads (chunks : list string) : list ReadStep :=
  (λ chunk, {| flagWrite := None; readResult := ReadValue chunk |}) <$> chunks.

(** The lines [splitSseBuffer] hands to the [for] loop over a whole stream,
    the unconsumed remainder being put in front of the next increment. *)
Fixpoint streamLines (buffer : string) (chunks : list string) : list string :=
  match chunks with
  | [] => []
  | chunk :: rest =>
      let '(lines, remaining) := splitSseBuffer (buffer +:+ chunk) in
      lines ++ streamLines remaining rest
  end.

(** The events of a stream: its lines that parse. *)
Definition streamEvents (chunks : list string) : list SseEvent :=
  omap parseSseLine (streamLines "" chunks).

End ChatService.

(** ** ChatService: the other methods *)

(** What the surroundings of one [sendMcpApproval] call supply; the fields
    are those of [Env], the request body being the approval's. *)
Record ApprovalRequestBody := {
  arb_message : string;
  arb_conversationId : string;
  arb_previousResponseId : string;
  arb_approvalRequestId : string;
  arb_approved : bool;
}.

Record ApprovalEnv := {
  a_apiUrl : string;
  a_getAccessToken : Completion (option string);
  a_dateNow : N;
  a_initiate : string → string → ApprovalRequestBody → Completion Response;
  a_flagWriteDuringRequest : option bool;
}.

Section ChatServiceMethods.
Context `{Imports}.

(** [ensureAuthToken], the token provider's answer being [answer]. *)
Definition ensureAuthTokenOf (answer : Completion (option string)) : M string :=
  token ← await answer;
  if truthy token then mret (jsOrEmpty token)
  else throw (ThrownAppError
                (createAppError (JsError "Failed to acquire access token" false)
                   (Some "AUTH") None)).

(** [sendMcpApproval] *)
Definition sendMcpApproval (env : ApprovalEnv) (approvalRequestId : string)
    (approved : bool) (previousResponseId conversationId : string) : M unit :=
  tryCatch
    (token ← ensureAuthTokenOf (a_getAccessToken env);
     let assistantMessageId := pretty (a_dateNow env) in
     dispatch (CHAT_ADD_ASSISTANT_MESSAGE assistantMessageId);;
     dispatch (CHAT_START_STREAM (Some conversationId) assistantMessageId);;
     setCurrentStreamAbort (Some {| aborted := false |});;
     setStreamCancelled false;;
     let requestBody :=
       {| arb_message := if approved then "Approved" else "Rejected";
          arb_conversationId := conversationId;
          arb_previousResponseId := previousResponseId;
          arb_approvalRequestId := approvalRequestId;
          arb_approved := approved |} in
     interleaved (a_flagWriteDuringRequest env);;
     response ← await (a_initiate env (a_apiUrl env +:+ "/chat/stream") token
                         requestBody);
     processStream response assistantMessageId (Some conversationId);;
     setCurrentStreamAbort None;;
     setStreamCancelled false)
    (λ error,
       if isAbortError error then mret ()
       else
         let appError :=
           if isAppError error then asAppError error
           else createAppError error (Some (getErrorCodeFromMessage error)) None in
         dispatch (CHAT_ERROR appError);;
         throw error).

(** [clearChat] *)
Definition clearChat : M unit := dispatch CHAT_CLEAR.

(** [clearError] *)
Definition clearError : M unit := dispatch CHAT_CLEAR_ERROR.

(** [cancelStream] *)
Definition cancelStream : M unit :=
  active ← getCurrentStreamAbort;
  match active with
  | Some _ =>
      setStreamCancelled true;;
      setCurrentStreamAbort (Some {| aborted := true |});;
      dispatch CHAT_CANCEL_STREAM
  | None => mret ()
  end.

(** The [for] loop of [processStream] over events that have been parsed. *)
Fixpoint processEvents (messageId : string) (v : LoopVars)
    (events : list SseEvent) : list AppAction * Step :=
  match events with
  | [] => ([], Continue v)
  | event :: rest =>
      match handleEvent messageId v event with
      | (acts, Continue v') =>
          let '(acts', s) := processEvents messageId v' rest in
          (acts ++ acts', s)
      | r => r
      end
  end.

End ChatServiceMethods.

(** The token provider's answer is a failure that is not an abort: it
    answers [null] or an empty token, or throws something else than an
    abort error. *)
Definition answerFails (answer : Completion (option string)) : bool :=
  match answer with
  | Normal token => negb (truthy token)
  | Throws e => negb (isAbortError e)
  end.

(** [AgentPreview.handleSendMessage]: the UI starts a turn with the
    conversation id and the last response id of the state it renders. *)
Definition handleSendMessage `{Imports} (env : Env) (s : AppState)
    (text : string) (files : option (list File)) : M unit :=
  sendMessage env text (currentConversationId (chat s)) files
    (lastResponseId (chat s)).

(** An intent that cannot move a chat off the conversation id [c]: any intent
    but [CHAT_CLEAR] and a [CHAT_START_STREAM] whose conversation id would
    replace [c]. *)
Definition keepsConversation (c : option string) (a : AppAction) : Prop :=
  match a with
  | CHAT_START_STREAM conversationId _ => jsOr conversationId c = c
  | CHAT_CLEAR => False
  | _ => True
  end.

(** No other call of the service happens while the method is suspended:
    nothing is assigned to the flag during the request or during a read. *)
Definition undisturbedResponse (response : Response) : Prop :=
  match body response with
  | Some reads => Forall (λ r, flagWrite r = None) reads
  | None => True
  end.

Definition undisturbed (env : Env) : Prop :=
  flagWriteDuringRequest env = None
  ∧ ∀ url token requestBody response,
      initiate env url token requestBody = Normal response →
      undisturbedResponse response.

(** The lines the [for] loop of [processStream] is handed over a whole run:
    none once the flag is seen set at the head of the loop, none from a
    read that rejects or from any read after it. *)
Fixpoint readLines `{Imports} (cancelled : bool) (buffer : string)
    (reads : list ReadStep) : list string :=
  match reads with
  | [] => []
  | r :: rest =>
      if cancelled then []
      else
        match readResult r with
        | ReadThrows _ => []
        | ReadValue chunk =>
            let '(lines, remaining) := splitSseBuffer (buffer +:+ chunk) in
            lines ++ readLines (default false (flagWrite r)) remaining rest
        end
  end.

(** An event after which the loop handles no further event: one that
    carries a truthy [data.error], a [done] event, an [error] event. *)
Definition stopsStream (event : SseEvent) : bool :=
  truthyError (data_error event)
  || match payload event with
     | EvDone | EvError _ => true
     | _ => false
     end.

(** The payloads of the [chunk] events of a sequence of events, in arrival
    order, up to the event that stops the stream; events of other types in
    between are passed over. *)
Fixpoint chunkPayloads (events : list SseEvent) : list string :=
  match events with
  | [] => []
  | event :: rest =>
      if stopsStream event then []
      else
        match payload event with
        | EvChunk p => p :: chunkPayloads rest
        | _ => chunkPayloads rest
        end
  end.

(** The final service state of a call. *)
Definition finalState {A} (run : list AppAction * ServiceState * Completion A)
  : ServiceState := run.1.2.

(** An intent [processStream] may dispatch for the message [messageId]. *)
Definition streamIntent (messageId : string) (a : AppAction) : Prop :=
  match a with
  | CHAT_START_STREAM _ mid
  | CHAT_STREAM_CHUNK mid _
  | CHAT_STREAM_ANNOTATIONS mid _
  | CHAT_MCP_APPROVAL_REQUEST mid _ _ => mid = messageId
  | CHAT_STREAM_COMPLETE _ _
  | CHAT_ERROR _ => True
  | _ => False
  end.

(** A [CHAT_START_STREAM] that carries a non-empty conversation id. *)
Definition startsConversation (a : AppAction) : bool :=
  match a with
  | CHAT_START_STREAM conversationId _ => truthy conversationId
  | _ => false
  end.

Definition countStarts (acts : list AppAction) : nat :=
  length (filter (λ a, startsConversation a = true) acts).

(** How many conversation-starting intents the loop may still dispatch:
    one as long as it holds no conversation id. *)
Definition budget (v : LoopVars) : nat :=
  if truthy (newConversationId v) then 0 else 1.

Definition stepBudget (st : Step) : nat :=
  match st with
  | Continue v => budget v
  | _ => 0
  end.

Definition loopBudget (st : LoopState) : nat :=
  match st with
  | Running _ v _ => budget v
  | Exited _ _ => 0
  end.

(** ** StarterMessages *)




(** ** Notions the statements use *)

(** The [type] tag of an intent. *)
Definition actionType (a : AppAction) : string :=
  match a with
  | AUTH_INITIALIZED _ => "AUTH_INITIALIZED"
  | AUTH_TOKEN_EXPIRED => "AUTH_TOKEN_EXPIRED"
  | CHAT_SEND_MESSAGE _ => "CHAT_SEND_MESSAGE"
  | CHAT_START_STREAM _ _ => "CHAT_START_STREAM"
  | CHAT_STREAM_CHUNK _ _ => "CHAT_STREAM_CHUNK"
  | CHAT_STREAM_ANNOTATIONS _ _ => "CHAT_STREAM_ANNOTATIONS"
  | CHAT_MCP_APPROVAL_REQUEST _ _ _ => "CHAT_MCP_APPROVAL_REQUEST"
  | CHAT_STREAM_COMPLETE _ _ => "CHAT_STREAM_COMPLETE"
  | CHAT_CANCEL_STREAM => "CHAT_CANCEL_STREAM"
  | CHAT_ERROR _ => "CHAT_ERROR"
  | CHAT_CLEAR_ERROR => "CHAT_CLEAR_ERROR"
  | CHAT_CLEAR => "CHAT_CLEAR"
  | CHAT_ADD_ASSISTANT_MESSAGE _ => "CHAT_ADD_ASSISTANT_MESSAGE"
  end.

(** The [CHAT_STREAM_CHUNK] intents among some intents, and the payload of
    such an intent. *)
Definition chunkIntents (acts : list AppAction) : list AppAction :=
  filter (λ a, actionType a = "CHAT_STREAM_CHUNK") acts.

Definition chunkContent (a : AppAction) : option string :=
  match a with
  | CHAT_STREAM_CHUNK _ content => Some content
  | _ => None
  end.

(** An event of type [chunk] with payload [p] and no truthy [data.error]. *)
Definition isChunkEvent (event : SseEvent) (p : string) : Prop :=
  truthyError (data_error event) = false ∧ payload event = EvChunk p.

(** The payloads section 8 keeps, in arrival order: each payload that
    differs from the payload that arrived just before it ([prev], for the
    first). *)
Fixpoint distinctFromPredecessor (prev : option string) (ps : list string)
  : list string :=
  match ps with
  | [] => []
  | p :: rest =>
      if decide (Some p = prev) then distinctFromPredecessor (Some p) rest
      else p :: distinctFromPredecessor (Some p) rest
  end.

(** Concatenation of a list of strings. *)
Definition concatAll (l : list string) : string := foldr String.append "" l.

(** The state after the reducer has taken the intents in dispatch order. *)
Definition dispatchAll (now : string) (s : AppState) (acts : list AppAction)
  : AppState :=
  foldl (appReducer now) s acts.

(** The conversation id of a stream: the id the stream was opened with or,
    as long as there is none, the id a [conversationId] event announces.
    No other event, [usage] with its response id included, bears on it. *)
Definition streamConversationId (currentConversationId : option string)
    (events : list SseEvent) : option string :=
  foldl (λ cid event,
           if truthy cid then cid
           else match payload event with
                | EvConversationId c => c
                | _ => cid
                end)
        currentConversationId events.

(** Token acquisition fails: the provider throws, or answers [null] (or an
    empty token). *)
Definition tokenFails (env : Env) : bool :=
  match getAccessToken env with
  | Normal token => negb (truthy token)
  | Throws _ => true
  end.

(** Attachment conversion fails: there are files and
    [convertFilesToDataUris] throws. *)
Definition conversionFails `{Imports} (files : option (list File)) : bool :=
  match files with
  | Some (f :: fs) =>
      match convertFilesToDataUris (f :: fs) with
      | Normal _ => false
      | Throws _ => true
      end
  | _ => false
  end.

(** The token provider itself throws an abort error. *)
Definition tokenAborts (env : Env) : bool :=
  match getAccessToken env with
  | Normal _ => false
  | Throws e => isAbortError e
  end.

(** The read that follows the reads [pre] rejects with [e], the flag having
    been assigned [w] (if anything) while it was pending. *)
Definition rejectedAfter (pre : list ReadStep) (w : option bool) (e : Thrown)
    (rest : list ReadStep) : Response :=
  {| body := Some (pre ++ {| flagWrite := w; readResult := ReadThrows e |} :: rest) |}.

(** The intents a call emitted. *)
Definition emitted {A} (run : list AppAction * ServiceState * Completion A)
  : list AppAction := run.1.1.

Definition completion {A} (run : list AppAction * ServiceState * Completion A)
  : Completion A := run.2.

(** The message a [CHAT_STREAM_CHUNK] or [CHAT_STREAM_ANNOTATIONS] intent
    addresses. *)
Definition streamTarget (a : AppAction) : option string :=
  match a with
  | CHAT_STREAM_CHUNK messageId _ => Some messageId
  | CHAT_STREAM_ANNOTATIONS messageId _ => Some messageId
  | _ => None
  end.

(** The message a stream intent puts in the place of its target [m]. *)
Definition updatedTarget (a : AppAction) (m : IChatItem) : IChatItem :=
  match a with
  | CHAT_STREAM_CHUNK _ content => withContent m (msg_content m +:+ content)
  | CHAT_STREAM_ANNOTATIONS _ annotations =>
      withAnnotations m (default [] (msg_annotations m) ++ annotations)
  | _ => m
  end.

(** ** Sample values *)

(** An assistant message with id [id] that has received [content]. *)
Definition sampleAssistant (id content : string) : IChatItem :=
  {| msg_id := id; msg_role := RoleAssistant; msg_content := content;
     msg_attachments := None;
     msg_more := Some {| more_time := Some "2025-01-01T00:00:00.000Z";
                         more_usage := None |};
     msg_annotations := None; msg_mcpApproval := None; msg_duration := None |}.

(** A session with conversation [conv-1] in which the assistant message
    [1700000000001] holds [Hel] and no stream is active (the state a
    cancelled stream leaves behind). *)
Definition sampleState : AppState :=
  {| auth := {| auth_status := AuthAuthenticated; auth_user := Some "alice";
                auth_error := None |};
     chat := {| chat_status := Idle;
                messages := [sampleAssistant "1700000000001" "Hel"];
                currentConversationId := Some "conv-1";
                lastResponseId := None;
                chat_error := None;
                streamingMessageId := None |};
     ui := {| chatInputEnabled := true |} |}.

Definition sampleAnnotation : IAnnotation :=
  {| ann_type := "url_citation"; ann_label := "source"; ann_url := None;
     ann_fileId := None; ann_startIndex := 0%Z; ann_endIndex := 3%Z;
     ann_quote := None |}.

(** *** A stand-in for the imports

    Enough to run the service on sample inputs: a stream is a sequence of
    lines, each ended by a line feed; the first character of a line tells
    the event ([c] chunk, [i] conversation id, [a] approval request, [d]
    done, [e] error), the rest is its payload; any other line does not
    parse. Every file converts, except one named [broken]. *)

Definition LF : string := String "010"%char "".

Fixpoint splitLines (line s : string) : list string * string :=
  match s with
  | EmptyString => ([], line)
  | String ch rest =>
      if decide (ch = "010"%char) then
        let '(lines, remaining) := splitLines "" rest in (line :: lines, remaining)
      else splitLines (line +:+ String ch "") rest
  end.

Definition sampleParse (line : string) : option SseEvent :=
  match line with
  | String "c" text =>
      Some {| data_error := None; payload := EvChunk text |}
  | String "i" text =>
      Some {| data_error := None; payload := EvConversationId (Some text) |}
  | String "a" text =>
      Some {| data_error := None;
              payload := EvMcpApprovalRequest
                           (Some {| req_id := text; req_toolName := "search";
                                    req_serverLabel := "docs";
                                    req_arguments := None |}) |}
  | String "d" _ => Some {| data_error := None; payload := EvDone |}
  | String "e" text =>
      Some {| data_error := None; payload := EvError (Some text) |}
  | _ => None
  end.

Definition sampleErrorMessage (e : Thrown) : string :=
  match e with
  | DOMException _ message => message
  | JsError message _ => message
  | ThrownAppError a => err_message a
  end.

Definition sampleConvert (files : list File) : Completion (list DataUriResult) :=
  if decide (Exists (λ f, file_name f = "broken") files) then
    Throws (JsError "Failed to read file" false)
  else
    Normal ((λ f, {| dataUri := "data:" +:+ file_type f +:+ ";base64,";
                     uri_name := file_name f; mimeType := file_type f |})
              <$> files).

#[local] Instance sampleImports : Imports := {|
  createAppError e code action :=
    {| err_code := default "UNKNOWN" code;
       err_message := sampleErrorMessage e;
       recoverable := true;
       err_action := action |};
  isAppError e := match e with ThrownAppError _ => true | _ => false end;
  isTokenExpiredError _ := false;
  getErrorCodeFromMessage _ := "UNKNOWN";
  convertFilesToDataUris := sampleConvert;
  createAttachmentMetadata results :=
    Some ((λ r, {| att_fileName := uri_name r; att_mimeType := mimeType r |})
            <$> results);
  parseSseLine := sampleParse;
  splitSseBuffer := splitLines "";
  appErrorIsError := false;
  castAppError e :=
    {| err_code := "UNKNOWN"; err_message := sampleErrorMessage e;
       recoverable := false; err_action := None |};
|}.

(** A service with no abort controller installed, as before the first turn
    and after a turn that succeeded; and one with a controller installed,
    as while a stream is in flight and after a turn that failed. *)
Definition idleService : ServiceState :=
  {| currentStreamAbort := None; streamCancelled := false |}.

Definition busyService : ServiceState :=
  {| currentStreamAbort := Some {| aborted := false |};
     streamCancelled := false |}.

(** The scenario of section 8: the chunks [Hel], [Hel], [lo] arrive in two
    increments, the second [Hel] split between them. *)
Definition helloChunks : list string :=
  ["cHel" +:+ LF +:+ "cH"; "el" +:+ LF +:+ "clo" +:+ LF].

(** A session in which the placeholder [m1] of the assistant's answer has
    been added and its stream started. *)
Definition streamingState : AppState :=
  {| auth := auth sampleState;
     chat := {| chat_status := Streaming;
                messages := [sampleAssistant "m1" ""];
                currentConversationId := None;
                lastResponseId := None;
                chat_error := None;
                streamingMessageId := Some "m1" |};
     ui := {| chatInputEnabled := false |} |}.

(** The runtime's message for an aborted fetch. *)
Definition abortError : Thrown :=
  DOMException "AbortError" "The user aborted a request.".

(** Surroundings in which the token provider answers [null], and
    surroundings in which it answers a token and the request yields the
    stream of [helloChunks]. *)
Definition noTokenEnv : Env :=
  {| apiUrl := "/api";
     getAccessToken := Normal None;
     dateNow1 := 1700000000000;
     dateNow2 := 1700000000000;
     isoTime := "2025-01-01T00:00:00.000Z";
     initiate := λ _ _ _, Normal {| body := Some (valueReads helloChunks) |};
     flagWriteDuringRequest := None |}.

Definition tokenEnv : Env :=
  {| apiUrl := "/api";
     getAccessToken := Normal (Some "token");
     dateNow1 := 1700000000000;
     dateNow2 := 1700000000000;
     isoTime := "2025-01-01T00:00:00.000Z";
     initiate := λ _ _ _, Normal {| body := Some (valueReads helloChunks) |};
     flagWriteDuringRequest := None |}.

Definition brokenFile : File :=
  {| file_name := "broken"; file_type := "image/png" |}.

(** A stream that announces its conversation id, sends some text and then
    asks for approval of a tool call. *)
Definition approvalChunks : list string :=
  ["iconv-9" +:+ LF +:+ "cHi" +:+ LF +:+ "areq-1" +:+ LF].

Definition sampleRequest : IMcpApprovalRequest :=
  {| req_id := "req-1"; req_toolName := "search"; req_serverLabel := "docs";
     req_arguments := None |}.

(** While a stream is running the chat input is disabled and the streaming
    message is known. *)
Definition streamingInvariant (s : AppState) : Prop :=
  chat_status (chat s) = Streaming →
  chatInputEnabled (ui s) = false ∧ streamingMessageId (chat s) ≠ None.

(** A session with two answers, the second still streaming. *)
Definition twoAnswers : AppState :=
  {| auth := auth sampleState;
     chat := {| chat_status := Streaming;
                messages := [sampleAssistant "m1" "Hello"; sampleAssistant "m2" "Wor"];
                currentConversationId := Some "conv-1";
                lastResponseId := Some "resp-1";
                chat_error := None;
                streamingMessageId := Some "m2" |};
     ui := {| chatInputEnabled := false |} |}.

Definition sampleUsage : IUsageInfo :=
  {| promptTokens := 12; completionTokens := 30; totalTokens := 42;
     usage_duration := 850 |}%Z.

(** The stream of [helloChunks] cut at other places, and the same stream
    without the retransmitted [Hel]. *)
Definition helloChunksRecut : list string :=
  ["cHel" +:+ LF; "cHel" +:+ LF +:+ "clo" +:+ LF].

Definition helloChunksOnce : list string :=
  ["cHel" +:+ LF +:+ "clo" +:+ LF].

(** A stream that goes on after its [done] event, and one that reports an
    error. *)
Definition doneChunks : list string :=
  ["cHi" +:+ LF +:+ "d" +:+ LF +:+ "cignored" +:+ LF; "cmore" +:+ LF].

Definition errorChunks : list string :=
  ["cHi" +:+ LF +:+ "eboom" +:+ LF +:+ "cignored" +:+ LF].

(** A service whose stream has been cancelled. *)
Definition cancelledService : ServiceState :=
  {| currentStreamAbort := Some {| aborted := true |};
     streamCancelled := true |}.

(** Surroundings in which the token is fine and the request fails. *)
Definition failingRequestEnv : Env :=
  {| apiUrl := "/api";
     getAccessToken := Normal (Some "token");
     dateNow1 := 1700000000000;
     dateNow2 := 1700000000000;
     isoTime := "2025-01-01T00:00:00.000Z";
     initiate := λ _ _ _, Throws (JsError "Failed to fetch" false);
     flagWriteDuringRequest := None |}.

(** Surroundings of an approval turn: without a token, and with a token
    and the stream of [helloChunks]. *)
Definition noTokenApprovalEnv : ApprovalEnv :=
  {| a_apiUrl := "/api";
     a_getAccessToken := Normal None;
     a_dateNow := 1700000000005;
     a_initiate := λ _ _ _, Normal {| body := Some (valueReads helloChunks) |};
     a_flagWriteDuringRequest := None |}.

Definition tokenApprovalEnv : ApprovalEnv :=
  {| a_apiUrl := "/api";
     a_getAccessToken := Normal (Some "token");
     a_dateNow := 1700000000005;
     a_initiate := λ _ _ _, Normal {| body := Some (valueReads helloChunks) |};
     a_flagWriteDuringRequest := None |}.

Definition pictureFile : File :=
  {| file_name := "cat.png"; file_type := "image/png" |}.

Definition reportFile : File :=
  {| file_name := "report.pdf"; file_type := "application/pdf" |}.

(** The stand-in for the imports with one more kind of line: [u] followed
    by a response id is a [usage] event. *)
Definition usageParse (line : string) : option SseEvent :=
  match line with
  | String "u" text =>
      Some {| data_error := None; payload := EvUsage sampleUsage (Some text) |}
  | _ => sampleParse line
  end.

Definition usageImports : Imports :=
  {| createAppError := @createAppError sampleImports;
     isAppError := @isAppError sampleImports;
     isTokenExpiredError := @isTokenExpiredError sampleImports;
     getErrorCodeFromMessage := @getErrorCodeFromMessage sampleImports;
     convertFilesToDataUris := sampleConvert;
     createAttachmentMetadata := @createAttachmentMetadata sampleImports;
     parseSseLine := usageParse;
     splitSseBuffer := splitLines "";
     appErrorIsError := false;
     castAppError := @castAppError sampleImports |}.

(** The answer [Hello], its first chunk retransmitted, followed by the
    usage report of response [resp-7]. *)
Definition completedChunks : list string :=
  ["cHel" +:+ LF +:+ "cHel" +:+ LF; "clo" +:+ LF +:+ "uresp-7" +:+ LF].

(** A stream in which other events come between the chunks: the
    conversation id first, an approval request between the two [Hel], the
    second [Hel] split between two reads, and a chunk after [done]. *)
Definition mixedChunks : list string :=
  ["iconv-9" +:+ LF +:+ "cHel" +:+ LF +:+ "areq-1" +:+ LF +:+ "cH";
   "el" +:+ LF +:+ "clo" +:+ LF +:+ "d" +:+ LF +:+ "cignored" +:+ LF].

(** Three reads, the flag being set while the second is pending. *)
Definition cancelledReads : list ReadStep :=
  [ {| flagWrite := None; readResult := ReadValue ("cA" +:+ LF) |};
    {| flagWrite := Some true; readResult := ReadValue ("cB" +:+ LF) |};
    {| flagWrite := None; readResult := ReadValue ("cC" +:+ LF) |} ].

(** * Properties *)

(** ** The reducer: lookup and update lemmas *)

Lemma findIndex_None messageId (msgs : list IChatItem) :
  findIndex messageId msgs = None ↔ Forall (λ m, msg_id m ≠ messageId) msgs.
Proof. unfold findIndex. apply list_find_None. Qed.

Lemma findIndex_Some messageId (msgs : list IChatItem) i m :
  findIndex messageId msgs = Some (i, m) →
  msgs !! i = Some m ∧ msg_id m = messageId.
Proof.
  unfold findIndex. intros Hf. apply list_find_Some in Hf. tauto.
Qed.

(** Replacing the found message by one with the same id leaves the lookup
    where it was. *)
Lemma findIndex_insert messageId (msgs : list IChatItem) i m m' :
  findIndex messageId msgs = Some (i, m) →
  msg_id m' = messageId →
  findIndex messageId (<[i := m']> msgs) = Some (i, m').
Proof.
  unfold findIndex. intros Hf Hid.
  apply list_find_Some in Hf as (Hi & _ & Hleast).
  apply list_find_Some. split_and!.
  - apply list_lookup_insert_eq. by eapply lookup_lt_Some.
  - done.
  - intros j y Hj Hlt. rewrite list_lookup_insert_ne in Hj by lia. eauto.
Qed.

(** ** Properties of the reducer *)

(** C4. A [CHAT_STREAM_CHUNK] or [CHAT_STREAM_ANNOTATIONS] intent whose
    [messageId] matches no message makes the reducer return the very state
    object it was given ([return state]), so in particular an equal state. *)
Theorem unknown_messageId_returns_same_state
    (now : string) (s : AppState) (messageId content : string)
    (annotations : list IAnnotation) :
  Forall (λ m, msg_id m ≠ messageId) (messages (chat s)) →
  appReducerRef now s (CHAT_STREAM_CHUNK messageId content) = SameState
  ∧ appReducerRef now s (CHAT_STREAM_ANNOTATIONS messageId annotations) = SameState
  ∧ appReducer now s (CHAT_STREAM_CHUNK messageId content) = s
  ∧ appReducer now s (CHAT_STREAM_ANNOTATIONS messageId annotations) = s.
Proof.
  intros Hnone. apply findIndex_None in Hnone.
  unfold appReducer, appReducerRef. by rewrite Hnone.
Qed.

Lemma unknown_messageId_returns_same_state_witness :
  appReducerRef "t" sampleState (CHAT_STREAM_CHUNK "orphan" "lo") = SameState
  ∧ appReducerRef "t" sampleState
      (CHAT_STREAM_ANNOTATIONS "orphan" [sampleAnnotation]) = SameState
  ∧ appReducer "t" sampleState (CHAT_STREAM_CHUNK "orphan" "lo") = sampleState
  ∧ appReducer "t" sampleState
      (CHAT_STREAM_ANNOTATIONS "orphan" [sampleAnnotation]) = sampleState.
Proof.
  apply (unknown_messageId_returns_same_state "t" sampleState "orphan" "lo"
           [sampleAnnotation]).
  repeat constructor. simpl. discriminate.
Defined.

(** C5. A [CHAT_ERROR] intent leaves [chat.messages] as it was: whatever
    content and annotations the streaming message had accumulated stay. *)
Theorem chat_error_preserves_messages
    (now : string) (s : AppState) (error : AppError) :
  messages (chat (appReducer now s (CHAT_ERROR error))) = messages (chat s).
Proof. reflexivity. Qed.

(** C8. After a [CHAT_ERROR] intent [ui.chatInputEnabled] is the error's
    [recoverable] flag: enabled for a recoverable error, disabled for a
    non-recoverable one, whatever it was before. *)
Theorem chat_error_input_follows_recoverable
    (now : string) (s : AppState) (error : AppError) :
  chatInputEnabled (ui (appReducer now s (CHAT_ERROR error))) = recoverable error.
Proof. reflexivity. Qed.

(** C9. [CHAT_CLEAR] is idempotent: applying it twice yields the state
    (auth, chat and ui) that applying it once yields. *)
Theorem chat_clear_idempotent (now now' : string) (s : AppState) :
  appReducer now' (appReducer now s CHAT_CLEAR) CHAT_CLEAR
  = appReducer now s CHAT_CLEAR.
Proof. reflexivity. Qed.

(** C7. From a state whose [currentConversationId] is non-null, every
    intent other than [CHAT_CLEAR] leads to a state whose
    [currentConversationId] is non-null; it is the old value unless the
    intent is a [CHAT_START_STREAM] that carries a conversation id; and
    [CHAT_CLEAR] resets it to null. *)
Theorem conversation_id_cleared_only_by_chat_clear
    (now : string) (s : AppState) (a : AppAction) :
  currentConversationId (chat s) ≠ None →
  a ≠ CHAT_CLEAR →
  currentConversationId (chat (appReducer now s a)) ≠ None
  ∧ ((∀ cid mid, a ≠ CHAT_START_STREAM (Some cid) mid) →
     currentConversationId (chat (appReducer now s a))
     = currentConversationId (chat s))
  ∧ currentConversationId (chat (appReducer now s CHAT_CLEAR)) = None.
Proof.
  intros Hset Hclear. unfold appReducer.
  destruct a as [| | |cid mid|mid content|mid anns| | | | | | |]; simpl;
    try done; try by (split_and!; [done|done|done]).
  - (* CHAT_START_STREAM *)
    unfold jsOr. destruct cid as [cid|]; simpl.
    + case_decide; simpl; split_and!; try done.
      all: intros Hne; by destruct (Hne cid mid).
    + by split_and!.
  - (* CHAT_STREAM_CHUNK *)
    destruct (findIndex mid (messages (chat s))) as [[i m]|]; by split_and!.
  - (* CHAT_STREAM_ANNOTATIONS *)
    destruct (findIndex mid (messages (chat s))) as [[i m]|]; by split_and!.
Qed.

Lemma conversation_id_cleared_only_by_chat_clear_witness :
  currentConversationId
    (chat (appReducer "t" sampleState (CHAT_START_STREAM (Some "conv-2") "7")))
  ≠ None
  ∧ ((∀ cid mid, CHAT_START_STREAM (Some "conv-2") "7"
                 ≠ CHAT_START_STREAM (Some cid) mid) →
     currentConversationId
       (chat (appReducer "t" sampleState (CHAT_START_STREAM (Some "conv-2") "7")))
     = currentConversationId (chat sampleState))
  ∧ currentConversationId (chat (appReducer "t" sampleState CHAT_CLEAR)) = None.
Proof.
  apply (conversation_id_cleared_only_by_chat_clear "t" sampleState
           (CHAT_START_STREAM (Some "conv-2") "7")).
  - simpl. discriminate.
  - discriminate.
Defined.

(** C2, as stated, fails: with no stream active ([streamingMessageId]
    absent) a chunk addressed to an existing message is still appended to
    it. The state is the one a cancelled stream leaves behind, the intent
    the one frame that may still be processed after the cancellation. *)
Lemma chunk_without_active_stream_counterexample :
  streamingMessageId (chat sampleState) = None
  ∧ msg_content <$> messages (chat sampleState) = ["Hel"]
  ∧ msg_content <$>
      messages (chat (appReducer "t" sampleState
                        (CHAT_STREAM_CHUNK "1700000000001" "lo")))
    = ["Hello"]
  ∧ messages (chat (appReducer "t" sampleState
                      (CHAT_STREAM_CHUNK "1700000000001" "lo")))
    ≠ messages (chat sampleState).
Proof. split_and!; [reflexivity..|]. vm_compute. discriminate. Qed.

(** C2, amended. With [streamingMessageId] absent, a [CHAT_STREAM_CHUNK] or
    [CHAT_STREAM_ANNOTATIONS] intent leaves [streamingMessageId] absent,
    keeps the number of messages, leaves every message whose id is not the
    intent's [messageId] as it was, and changes nothing at all when no
    message has that id; the first message that has that id receives the
    content or the annotations all the same: the reducer looks the target
    up by the intent's [messageId] and does not consult
    [streamingMessageId]. *)
Theorem stream_update_without_active_stream
    (now : string) (s : AppState) (a : AppAction) (messageId : string) :
  streamingMessageId (chat s) = None →
  streamTarget a = Some messageId →
  streamingMessageId (chat (appReducer now s a)) = None
  ∧ length (messages (chat (appReducer now s a))) = length (messages (chat s))
  ∧ (∀ j m, messages (chat s) !! j = Some m → msg_id m ≠ messageId →
            messages (chat (appReducer now s a)) !! j = Some m)
  ∧ (Forall (λ m, msg_id m ≠ messageId) (messages (chat s)) →
     appReducer now s a = s)
  ∧ (∀ i m, findIndex messageId (messages (chat s)) = Some (i, m) →
            messages (chat (appReducer now s a)) !! i
            = Some (updatedTarget a m)).
Proof.
  intros Hidle Ha. unfold appReducer.
  destruct a; simplify_eq/=;
    destruct (findIndex messageId (messages (chat s))) as [[i m0]|] eqn:Hf;
    simpl; try (split_and!; by eauto).
  all: pose proof (findIndex_Some _ _ _ _ Hf) as [Hi Hid].
  all: split_and!; [done | by rewrite length_insert | | | ].
  all: try (intros j m Hj Hne; rewrite list_lookup_insert_ne; [done|];
            intros ->; congruence).
  all: try (intros Hall; apply findIndex_None in Hall; congruence).
  all: intros i' m' Heq; simplify_eq; apply list_lookup_insert_eq;
    by eapply lookup_lt_Some.
Qed.

Lemma stream_update_without_active_stream_witness :
  streamingMessageId
    (chat (appReducer "t" sampleState (CHAT_STREAM_CHUNK "1700000000001" "lo")))
  = None
  ∧ length (messages (chat (appReducer "t" sampleState
                              (CHAT_STREAM_CHUNK "1700000000001" "lo"))))
    = length (messages (chat sampleState))
  ∧ (∀ j m, messages (chat sampleState) !! j = Some m →
            msg_id m ≠ "1700000000001" →
            messages (chat (appReducer "t" sampleState
                              (CHAT_STREAM_CHUNK "1700000000001" "lo"))) !! j
            = Some m)
  ∧ (Forall (λ m, msg_id m ≠ "1700000000001") (messages (chat sampleState)) →
     appReducer "t" sampleState (CHAT_STREAM_CHUNK "1700000000001" "lo")
     = sampleState)
  ∧ (∀ i m, findIndex "1700000000001" (messages (chat sampleState))
            = Some (i, m) →
            messages (chat (appReducer "t" sampleState
                              (CHAT_STREAM_CHUNK "1700000000001" "lo"))) !! i
            = Some (updatedTarget (CHAT_STREAM_CHUNK "1700000000001" "lo") m)).
Proof.
  apply (stream_update_without_active_stream "t" sampleState
           (CHAT_STREAM_CHUNK "1700000000001" "lo") "1700000000001");
    reflexivity.
Defined.

(** ** The stream loop: structure lemmas *)

Lemma string_app_cons (ch : ascii) (a b : string) :
  String ch a +:+ b = String ch (a +:+ b).
Proof. reflexivity. Qed.

Lemma string_app_assoc (a b c : string) : (a +:+ b) +:+ c = a +:+ (b +:+ c).
Proof.
  induction a as [|ch a IH]; [done|].
  by rewrite !string_app_cons, IH.
Qed.

Lemma string_app_empty_r (a : string) : a +:+ "" = a.
Proof.
  induction a as [|ch a IH]; [done|]. by rewrite string_app_cons, IH.
Qed.

Lemma concatAll_cons (p : string) (l : list string) :
  concatAll (p :: l) = p +:+ concatAll l.
Proof. reflexivity. Qed.

Lemma withContent_same (m : IChatItem) : withContent m (msg_content m) = m.
Proof. by destruct m. Qed.

Lemma dispatchAll_cons now s a (acts : list AppAction) :
  dispatchAll now s (a :: acts) = dispatchAll now (appReducer now s a) acts.
Proof. reflexivity. Qed.

(** Folding the reducer over chunk intents for a message that exists
    appends their payloads, in order, to that message. *)
Lemma dispatchAll_chunks now messageId (qs : list string) :
  ∀ s i m,
    findIndex messageId (messages (chat s)) = Some (i, m) →
    findIndex messageId
      (messages (chat (dispatchAll now s (CHAT_STREAM_CHUNK messageId <$> qs))))
    = Some (i, withContent m (msg_content m +:+ concatAll qs)).
Proof.
  induction qs as [|q qs IH]; intros s i m Hf.
  - simpl. by rewrite string_app_empty_r, (withContent_same m).
  - rewrite fmap_cons, dispatchAll_cons.
    pose proof (findIndex_Some _ _ _ _ Hf) as [_ Hid].
    set (m1 := withContent m (msg_content m +:+ q)).
    assert (findIndex messageId
              (messages (chat (appReducer now s (CHAT_STREAM_CHUNK messageId q))))
            = Some (i, m1)) as Hf1.
    { unfold appReducer, appReducerRef. rewrite Hf. simpl.
      by apply (findIndex_insert _ _ _ m). }
    rewrite (IH _ _ _ Hf1). subst m1.
    rewrite concatAll_cons. unfold withContent. simpl.
    by rewrite string_app_assoc.
Qed.

Section StreamProperties.
Context `{Imports}.

Lemma processLines_app messageId (l1 l2 : list string) :
  ∀ v,
    processLines messageId v (l1 ++ l2)
    = match processLines messageId v l1 with
      | (acts, Continue v') =>
          let '(acts', s) := processLines messageId v' l2 in (acts ++ acts', s)
      | r => r
      end.
Proof.
  induction l1 as [|line l1 IH]; intros v; simpl.
  - by destruct (processLines messageId v l2).
  - destruct (parseSseLine line) as [event|]; [|apply IH].
    destruct (handleEvent messageId v event) as [acts [v'| |e]]; try done.
    rewrite IH.
    destruct (processLines messageId v' l1) as [acts1 [v1| |e1]]; try done.
    destruct (processLines messageId v1 l2) as [acts2 s2].
    by rewrite app_assoc.
Qed.

Lemma readLoop_Exited messageId cur cancelled r (reads : list ReadStep) :
  readLoop messageId cur (Exited cancelled r) reads = ([], Exited cancelled r).
Proof. induction reads as [|x reads IH]; [done|]. simpl. by rewrite IH. Qed.

Lemma readLoop_app messageId cur (l1 l2 : list ReadStep) :
  ∀ st,
    readLoop messageId cur st (l1 ++ l2)
    = let '(acts, st') := readLoop messageId cur st l1 in
      let '(acts', st'') := readLoop messageId cur st' l2 in
      (acts ++ acts', st'').
Proof.
  induction l1 as [|r l1 IH]; intros st; simpl.
  - by destruct (readLoop messageId cur st l2).
  - destruct (iteration messageId cur st r) as [acts0 st0].
    rewrite IH.
    destruct (readLoop messageId cur st0 l1) as [acts1 st1].
    destruct (readLoop messageId cur st1 l2) as [acts2 st2].
    by rewrite app_assoc.
Qed.

(** An undisturbed stream is the [for] loop run over all its lines. *)
Lemma readLoop_valueReads messageId cur (chunks : list string) :
  ∀ v buffer acts s,
    processLines messageId v (streamLines buffer chunks) = (acts, s) →
    match s with
    | Continue v' =>
        ∃ buffer',
          readLoop messageId cur (Running false v buffer) (valueReads chunks)
          = (acts, Running false v' buffer')
    | ReturnDone =>
        readLoop messageId cur (Running false v buffer) (valueReads chunks)
        = (acts, Exited false (Normal ()))
    | Throw e =>
        readLoop messageId cur (Running false v buffer) (valueReads chunks)
        = (acts ++ (catchBlock messageId cur false e).1,
           Exited false (catchBlock messageId cur false e).2)
    end.
Proof.
  induction chunks as [|chunk chunks IH]; intros v buffer acts s Hp.
  - simpl in Hp. simplify_eq. by exists buffer.
  - simpl in Hp. simpl.
    destruct (splitSseBuffer (buffer +:+ chunk)) as [lines remaining].
    rewrite processLines_app in Hp.
    destruct (processLines messageId v lines) as [acts1 [v1| |e1]].
    + destruct (processLines messageId v1 (streamLines remaining chunks))
        as [acts2 s2] eqn:Hrest.
      injection Hp as <- <-. specialize (IH _ _ _ _ Hrest).
      destruct s2 as [v2| |e2].
      * destruct IH as [b' ->]. by exists b'.
      * by rewrite IH.
      * rewrite IH. by rewrite app_assoc.
    + simplify_eq. by rewrite readLoop_Exited, app_nil_r.
    + simplify_eq.
      destruct (catchBlock messageId cur false e1) as [acts' c].
      by rewrite readLoop_Exited, app_nil_r.
Qed.

(** Over lines that parse to chunk events, the loop dispatches one
    [CHAT_STREAM_CHUNK] per payload that differs from its predecessor. *)
Lemma processLines_chunks messageId (lines : list string) :
  ∀ v ps,
    Forall2 isChunkEvent (omap parseSseLine lines) ps →
    ∃ last,
      processLines messageId v lines
      = (CHAT_STREAM_CHUNK messageId
           <$> distinctFromPredecessor (lastChunkContent v) ps,
         Continue {| newConversationId := newConversationId v;
                     lastChunkContent := last |}).
Proof.
  induction lines as [|line lines IH]; intros v ps Hev; simpl in *.
  - apply Forall2_nil_inv_l in Hev as ->. exists (lastChunkContent v).
    by destruct v.
  - destruct (parseSseLine line) as [event|]; [|by apply IH].
    apply Forall2_cons_inv_l in Hev as (p & ps' & [Herr Hpay] & Hev & ->).
    unfold handleEvent. rewrite Herr, Hpay. simpl.
    case_decide as Hdup.
    + destruct (IH v ps' Hev) as [last ->]. rewrite <- Hdup. by exists last.
    + destruct (IH {| newConversationId := newConversationId v;
                      lastChunkContent := Some p |} ps' Hev) as [last ->].
      by exists last.
Qed.

End StreamProperties.

(** ** The stream loop: errors and cancellation *)

Section StreamErrors.
Context `{Imports}.

(** An event that does not throw dispatches no [CHAT_ERROR]. *)
Lemma handleEvent_no_chat_error messageId v event acts st :
  handleEvent messageId v event = (acts, st) →
  (∀ e, st ≠ Throw e) →
  Forall (λ a, actionType a ≠ "CHAT_ERROR") acts.
Proof.
  unfold handleEvent. intros Hh Hst.
  destruct (truthyError (data_error event)).
  { simplify_eq. by destruct (Hst (ThrownAppError
      (streamError (dataErrorMessage (data_error event))))). }
  destruct (payload event) as [cid|content|[[|a l]|]|[req|]|usage rid| |msg|ty];
    repeat case_match; simplify_eq; repeat constructor; try done.
  by destruct (Hst (ThrownAppError
    (streamError ("Stream error for message " +:+ messageId +:+ ": "
                  +:+ interpolate "undefined" msg)))).
Qed.

Lemma processLines_no_chat_error messageId (lines : list string) :
  ∀ v acts st,
    processLines messageId v lines = (acts, st) →
    (∀ e, st ≠ Throw e) →
    Forall (λ a, actionType a ≠ "CHAT_ERROR") acts.
Proof.
  induction lines as [|line lines IH]; intros v acts st Hp Hst; simpl in Hp.
  - by simplify_eq.
  - destruct (parseSseLine line) as [event|]; [|by eapply IH].
    destruct (handleEvent messageId v event) as [acts0 st0] eqn:Hh.
    destruct st0 as [v'| |e].
    + destruct (processLines messageId v' lines) as [acts1 st1] eqn:Hrest.
      simplify_eq. apply Forall_app. split.
      * eapply handleEvent_no_chat_error; [done|]. intros e. discriminate.
      * by eapply IH.
    + simplify_eq. eapply handleEvent_no_chat_error; [done|]. intros e. discriminate.
    + simplify_eq. by destruct (Hst e).
Qed.

(** An iteration after which the loop is still running has dispatched no
    [CHAT_ERROR], and found the loop running with the flag clear. *)
Lemma iteration_Running messageId cur st r acts cancelled v buffer :
  iteration messageId cur st r = (acts, Running cancelled v buffer) →
  Forall (λ a, actionType a ≠ "CHAT_ERROR") acts
  ∧ ∃ v0 buffer0, st = Running false v0 buffer0.
Proof.
  unfold iteration. intros Hi.
  destruct st as [[|] v0 buffer0|c0 r0]; simplify_eq.
  destruct (readResult r) as [chunk|e].
  - destruct (splitSseBuffer (buffer0 +:+ chunk)) as [lines remaining].
    destruct (processLines messageId v0 lines) as [acts0 [v'| |e]] eqn:Hp.
    + simplify_eq. split; [|by eauto].
      eapply processLines_no_chat_error; [done|]. intros e. discriminate.
    + simplify_eq.
    + destruct (catchBlock messageId cur (default false (flagWrite r)) e).
      simplify_eq.
  - destruct (catchBlock messageId cur (default false (flagWrite r)) e).
    simplify_eq.
Qed.

Lemma readLoop_Running messageId cur (reads : list ReadStep) :
  ∀ st acts cancelled v buffer,
    readLoop messageId cur st reads = (acts, Running cancelled v buffer) →
    Forall (λ a, actionType a ≠ "CHAT_ERROR") acts.
Proof.
  induction reads as [|r reads IH]; intros st acts cancelled v buffer Hr;
    simpl in Hr.
  - by simplify_eq.
  - destruct (iteration messageId cur st r) as [acts0 st0] eqn:Hi.
    destruct (readLoop messageId cur st0 reads) as [acts1 st1] eqn:Hrest.
    simplify_eq. destruct st0 as [c0 v0 b0|c0 r0].
    + apply Forall_app. split.
      * by eapply iteration_Running.
      * by eapply IH.
    + by rewrite readLoop_Exited in Hrest.
Qed.

(** C3. A read of the stream loop rejects with an abort error. If the
    cancellation flag was set while the read was pending, [processStream]
    returns normally and the whole run has dispatched no [CHAT_ERROR]
    (benign cancellation); if the flag is not set, the run rethrows the
    abort error after dispatching a [CHAT_ERROR] as its last intent
    (transport failure). *)
Theorem abort_is_benign_iff_cancelled
    (messageId : string) (currentConversationId : option string)
    (σ : ServiceState) (pre rest : list ReadStep) (w : option bool)
    (e : Thrown) (acts : list AppAction) (v : LoopVars) (buffer : string) :
  isAbortError e = true →
  readLoop messageId currentConversationId
    (loopStart (streamCancelled σ) currentConversationId) pre
  = (acts, Running false v buffer) →
  (w = Some true →
   completion (processStream (rejectedAfter pre w e rest)
                 messageId currentConversationId σ) = Normal ()
   ∧ Forall (λ a, actionType a ≠ "CHAT_ERROR")
       (emitted (processStream (rejectedAfter pre w e rest)
                   messageId currentConversationId σ)))
  ∧ (w ≠ Some true →
     completion (processStream (rejectedAfter pre w e rest)
                   messageId currentConversationId σ) = Throws e
     ∧ emitted (processStream (rejectedAfter pre w e rest)
                  messageId currentConversationId σ)
       = acts ++ [CHAT_ERROR (asAppError e)]).
Proof.
  intros Habort Hpre.
  pose proof (readLoop_Running _ _ _ _ _ _ _ _ Hpre) as Hclean.
  unfold processStream, rejectedAfter, emitted, completion. simpl.
  rewrite readLoop_app, Hpre. simpl.
  unfold catchBlock. rewrite Habort. simpl.
  split.
  - intros ->. simpl. rewrite readLoop_Exited. simpl.
    by rewrite !app_nil_r.
  - intros Hw.
    assert (default false w = false) as ->.
    { destruct w as [[|]|]; done. }
    destruct e as [name message|message hasCode|a]; try done. simpl.
    rewrite readLoop_Exited. simpl. by rewrite ?app_nil_r.
Qed.

End StreamErrors.

Lemma abort_is_benign_iff_cancelled_witness :
  (Some true = Some true →
   completion (processStream
                 (rejectedAfter (valueReads ["cHel" +:+ LF]) (Some true)
                    abortError [])
                 "m1" None idleService) = Normal ()
   ∧ Forall (λ a, actionType a ≠ "CHAT_ERROR")
       (emitted (processStream
                   (rejectedAfter (valueReads ["cHel" +:+ LF]) (Some true)
                      abortError [])
                   "m1" None idleService)))
  ∧ (Some true ≠ Some true →
     completion (processStream
                   (rejectedAfter (valueReads ["cHel" +:+ LF]) (Some true)
                      abortError [])
                   "m1" None idleService) = Throws abortError
     ∧ emitted (processStream
                  (rejectedAfter (valueReads ["cHel" +:+ LF]) (Some true)
                     abortError [])
                  "m1" None idleService)
       = [CHAT_STREAM_CHUNK "m1" "Hel"] ++ [CHAT_ERROR (asAppError abortError)]).
Proof.
  apply (abort_is_benign_iff_cancelled "m1" None idleService
           (valueReads ["cHel" +:+ LF]) [] (Some true) abortError
           [CHAT_STREAM_CHUNK "m1" "Hel"]
           {| newConversationId := None; lastChunkContent := Some "Hel" |} "").
  - reflexivity.
  - reflexivity.
Defined.

(** ** Approval requests *)

Section ApprovalRequests.
Context `{Imports}.

(** What one event does to the conversation id the loop holds. *)
Lemma handleEvent_conversationId messageId v event acts v' :
  handleEvent messageId v event = (acts, Continue v') →
  newConversationId v'
  = streamConversationId (newConversationId v) [event].
Proof.
  unfold handleEvent, streamConversationId. simpl. intros Hh.
  destruct (truthyError (data_error event)); [done|].
  destruct (payload event) as [cid|content|[[|a l]|]|[req|]|usage rid| |msg|ty];
    repeat case_match; by simplify_eq.
Qed.

(** The loop's [newConversationId] is the conversation id of the stream
    read so far. *)
Lemma processLines_conversationId messageId (lines : list string) :
  ∀ v acts v',
    processLines messageId v lines = (acts, Continue v') →
    newConversationId v'
    = streamConversationId (newConversationId v) (omap parseSseLine lines).
Proof.
  induction lines as [|line lines IH]; intros v acts v' Hp; simpl in Hp.
  - by simplify_eq.
  - simpl. destruct (parseSseLine line) as [event|]; [|by eapply IH].
    destruct (handleEvent messageId v event) as [acts0 [v0| |e]] eqn:Hh;
      [|done..].
    destruct (processLines messageId v0 lines) as [acts1 st1] eqn:Hrest.
    simplify_eq. rewrite (IH _ _ _ Hrest).
    by rewrite (handleEvent_conversationId _ _ _ _ _ Hh).
Qed.

(** C10. An [mcpApprovalRequest] event that carries a request, reached by
    the stream loop after the lines [pre]: the loop dispatches
    [CHAT_MCP_APPROVAL_REQUEST] for the stream's message id, with the
    request and, as [previousResponseId], the conversation id of the stream
    (the id it was opened with or the one a [conversationId] event
    announced, possibly null; never the response id of a [usage] event).
    The reducer appends a message whose id is [approval-] followed by that
    message id and whose [mcpApproval.previousResponseId] is that
    conversation id, the empty string standing for null. *)
Theorem approval_request_carries_conversation_id
    (messageId : string) (currentConversationId : option string)
    (σ : ServiceState) (chunks : list string) (rest : list ReadStep)
    (pre post : list string) (line : string)
    (err : option ErrorField) (request : IMcpApprovalRequest)
    (acts : list AppAction) (v : LoopVars) (now : string) (s : AppState) :
  streamCancelled σ = false →
  streamLines "" chunks = pre ++ line :: post →
  parseSseLine line
  = Some {| data_error := err;
            payload := EvMcpApprovalRequest (Some request) |} →
  truthyError err = false →
  processLines messageId
    {| newConversationId := currentConversationId; lastChunkContent := None |}
    pre
  = (acts, Continue v) →
  (∃ acts',
     emitted (processStream {| body := Some (valueReads chunks ++ rest) |}
                messageId currentConversationId σ)
     = acts
       ++ CHAT_MCP_APPROVAL_REQUEST messageId request
            (streamConversationId currentConversationId
               (omap parseSseLine pre))
       :: acts')
  ∧ messages
      (chat (appReducer now s
               (CHAT_MCP_APPROVAL_REQUEST messageId request
                  (streamConversationId currentConversationId
                     (omap parseSseLine pre)))))
    = messages (chat s)
      ++ [ {| msg_id := "approval-" +:+ messageId;
              msg_role := RoleApproval;
              msg_content := "";
              msg_attachments := None; msg_more := None;
              msg_annotations := None;
              msg_mcpApproval :=
                Some {| mcp_id := req_id request;
                        mcp_toolName := req_toolName request;
                        mcp_serverLabel := req_serverLabel request;
                        mcp_arguments := req_arguments request;
                        mcp_previousResponseId :=
                          default ""
                            (streamConversationId currentConversationId
                               (omap parseSseLine pre)) |};
              msg_duration := None |} ].
Proof.
  intros Hflag Hlines Hparse Herr Hpre.
  split.
  - pose proof (processLines_conversationId _ _ _ _ _ Hpre) as Hcid.
    simpl in Hcid. rewrite <- Hcid.
    unfold processStream, emitted, loopStart. simpl. rewrite Hflag.
    rewrite readLoop_app.
    destruct (processLines messageId v post) as [acts2 s2] eqn:Hpost.
    assert (processLines messageId
              {| newConversationId := currentConversationId;
                 lastChunkContent := None |}
              (streamLines "" chunks)
            = (acts ++ CHAT_MCP_APPROVAL_REQUEST messageId request
                         (newConversationId v) :: acts2, s2)) as Hall.
    { rewrite Hlines, processLines_app, Hpre. simpl. rewrite Hparse.
      unfold handleEvent. simpl. rewrite Herr. by rewrite Hpost. }
    pose proof (readLoop_valueReads messageId currentConversationId chunks
                  _ "" _ _ Hall) as Hloop.
    destruct s2 as [v2| |e2].
    + destruct Hloop as [b' ->].
      destruct (readLoop messageId currentConversationId
                  (Running false v2 b') rest) as [acts3 st3].
      destruct (loopEnd st3). simpl. exists (acts2 ++ acts3).
      by rewrite <- app_assoc.
    + rewrite Hloop, readLoop_Exited. simpl. exists acts2.
      by rewrite app_nil_r.
    + rewrite Hloop, readLoop_Exited.
      destruct (catchBlock messageId currentConversationId false e2)
        as [acts3 c3]. simpl.
      exists (acts2 ++ acts3). by rewrite app_nil_r, <- app_assoc.
  - unfold appReducer. simpl. unfold approvalMessage.
    by destruct (streamConversationId currentConversationId
                   (omap parseSseLine pre)).
Qed.

End ApprovalRequests.

Lemma approval_request_carries_conversation_id_witness :
  (∃ acts',
     emitted (processStream {| body := Some (valueReads approvalChunks ++ []) |}
                "m1" None idleService)
     = [CHAT_START_STREAM (Some "conv-9") "m1"; CHAT_STREAM_CHUNK "m1" "Hi"]
       ++ CHAT_MCP_APPROVAL_REQUEST "m1" sampleRequest
            (streamConversationId None (omap parseSseLine ["iconv-9"; "cHi"]))
       :: acts')
  ∧ messages
      (chat (appReducer "t" streamingState
               (CHAT_MCP_APPROVAL_REQUEST "m1" sampleRequest
                  (streamConversationId None
                     (omap parseSseLine ["iconv-9"; "cHi"])))))
    = messages (chat streamingState)
      ++ [ {| msg_id := "approval-" +:+ "m1";
              msg_role := RoleApproval;
              msg_content := "";
              msg_attachments := None; msg_more := None;
              msg_annotations := None;
              msg_mcpApproval :=
                Some {| mcp_id := req_id sampleRequest;
                        mcp_toolName := req_toolName sampleRequest;
                        mcp_serverLabel := req_serverLabel sampleRequest;
                        mcp_arguments := req_arguments sampleRequest;
                        mcp_previousResponseId :=
                          default ""
                            (streamConversationId None
                               (omap parseSseLine ["iconv-9"; "cHi"])) |};
              msg_duration := None |} ].
Proof.
  apply (approval_request_carries_conversation_id "m1" None idleService
           approvalChunks [] ["iconv-9"; "cHi"] [] "areq-1" None sampleRequest
           [CHAT_START_STREAM (Some "conv-9") "m1"; CHAT_STREAM_CHUNK "m1" "Hi"]
           {| newConversationId := Some "conv-9";
              lastChunkContent := Some "Hi" |}
           "t" streamingState);
    reflexivity.
Defined.

(** ** sendMessage: failures before the request *)

(** C6 as stated fails: when [sendMessage] is called while a stream is in
    flight and the token provider answers [null], the call first cancels
    that stream, so the intents it emits are [CHAT_CANCEL_STREAM] and then
    [CHAT_ERROR], not a [CHAT_ERROR] alone. *)
Lemma failed_send_while_streaming_counterexample :
  tokenFails noTokenEnv = true
  ∧ emitted (sendMessage noTokenEnv "Hi" None None None busyService)
    = [CHAT_CANCEL_STREAM;
       CHAT_ERROR {| err_code := "AUTH";
                     err_message := "Failed to acquire access token";
                     recoverable := true;
                     err_action := None |}]
  ∧ ¬ Forall (λ a, actionType a = "CHAT_ERROR")
        (emitted (sendMessage noTokenEnv "Hi" None None None busyService)).
Proof.
  split_and!; [reflexivity..|].
  intros Hall. apply Forall_cons in Hall as [Hhead _]. discriminate.
Qed.

Section EarlyFailure.
Context `{Imports}.

(** C6, amended. When token acquisition or attachment conversion fails,
    [sendMessage] emits no [CHAT_SEND_MESSAGE], [CHAT_ADD_ASSISTANT_MESSAGE]
    or [CHAT_START_STREAM] intent. What it emits is a [CHAT_CANCEL_STREAM]
    first exactly when an abort controller is installed
    ([currentStreamAbort] is set) at the call, as it is while a stream is in
    flight and as a turn that failed leaves it; and after it only
    [AUTH_TOKEN_EXPIRED] and [CHAT_ERROR] intents; unless the token provider
    threw an abort error, the last intent is a [CHAT_ERROR] and the call
    rethrows. *)
Theorem early_failure_emits_no_message_intent
    (env : Env) (messageText : string) (currentConversationId : option string)
    (files : option (list File)) (previousResponseId : option string)
    (σ : ServiceState) :
  tokenFails env = true ∨ conversionFails files = true →
  Forall (λ a, actionType a ≠ "CHAT_SEND_MESSAGE"
               ∧ actionType a ≠ "CHAT_ADD_ASSISTANT_MESSAGE"
               ∧ actionType a ≠ "CHAT_START_STREAM")
    (emitted (sendMessage env messageText currentConversationId files
                previousResponseId σ))
  ∧ ∃ acts,
      emitted (sendMessage env messageText currentConversationId files
                 previousResponseId σ)
      = match currentStreamAbort σ with
        | Some _ => [CHAT_CANCEL_STREAM]
        | None => []
        end ++ acts
      ∧ Forall (λ a, actionType a = "AUTH_TOKEN_EXPIRED"
                     ∨ actionType a = "CHAT_ERROR") acts
      ∧ (tokenAborts env = false →
         ∃ acts0 error thrown,
           acts = acts0 ++ [CHAT_ERROR error]
           ∧ completion (sendMessage env messageText currentConversationId
                           files previousResponseId σ) = Throws thrown).
Proof.
  intros Hfail.
  unfold sendMessage, ensureAuthToken, prepareMessagePayload, tokenFails,
    conversionFails, tokenAborts, emitted, completion in *.
  unfold mbind, M_bind, bind, tryCatch, getCurrentStreamAbort, await, throw,
    dispatch, setStreamCancelled, setCurrentStreamAbort, mret, M_ret, ret.
  destruct σ as [[ctl|] flag]; simpl;
    destruct (getAccessToken env) as [token|e]; simpl in *.
  all: try (destruct (truthy token) eqn:Htok; simpl in * ).
  all: try (destruct Hfail as [Hfail|Hfail]; [done|];
            destruct files as [[|f fs]|]; try done;
            destruct (convertFilesToDataUris (f :: fs)) as [results|e] eqn:Hc;
            try done; simpl ).
  all: try (destruct (isAbortError e) eqn:Habort; simpl ).
  all: repeat match goal with
         | |- context [isTokenExpiredError ?x] =>
             destruct (isTokenExpiredError x); simpl
         end.
  all: split; [repeat constructor; simpl; try done|].
  all: eexists; split; [reflexivity|].
  all: split; [repeat constructor; simpl; by eauto|].
  all: intros Hna; try done.
  all: first [ by eexists [], _, _ | by eexists [_], _, _
             | by eexists [_; _], _, _ ].
Qed.

End EarlyFailure.

Lemma early_failure_emits_no_message_intent_witness :
  Forall (λ a, actionType a ≠ "CHAT_SEND_MESSAGE"
               ∧ actionType a ≠ "CHAT_ADD_ASSISTANT_MESSAGE"
               ∧ actionType a ≠ "CHAT_START_STREAM")
    (emitted (sendMessage tokenEnv "Hi" None (Some [brokenFile]) None
                busyService))
  ∧ ∃ acts,
      emitted (sendMessage tokenEnv "Hi" None (Some [brokenFile]) None
                 busyService)
      = match currentStreamAbort busyService with
        | Some _ => [CHAT_CANCEL_STREAM]
        | None => []
        end ++ acts
      ∧ Forall (λ a, actionType a = "AUTH_TOKEN_EXPIRED"
                     ∨ actionType a = "CHAT_ERROR") acts
      ∧ (tokenAborts tokenEnv = false →
         ∃ acts0 error thrown,
           acts = acts0 ++ [CHAT_ERROR error]
           ∧ completion (sendMessage tokenEnv "Hi" None (Some [brokenFile])
                           None busyService) = Throws thrown).
Proof.
  apply (early_failure_emits_no_message_intent tokenEnv "Hi" None
           (Some [brokenFile]) None busyService).
  right. reflexivity.
Defined.

(** * Further properties of the reducer *)

(** Replacing the message an id resolves to by one with the same id does
    not change what any other id resolves to. *)
Lemma findIndex_insert_ne messageId other (msgs : list IChatItem) i m m' :
  findIndex messageId msgs = Some (i, m) →
  msg_id m' = messageId →
  other ≠ messageId →
  findIndex other (<[i := m']> msgs) = findIndex other msgs.
Proof.
  intros Hf Hid Hne.
  pose proof (findIndex_Some _ _ _ _ Hf) as [Hi Him].
  destruct (findIndex other msgs) as [[k y]|] eqn:Ho.
  - unfold findIndex in *. apply list_find_Some in Ho as (Hk & Hy & Hleast).
    assert (i ≠ k) as Hik by (intros ->; congruence).
    apply list_find_Some. split_and!.
    + by rewrite list_lookup_insert_ne.
    + done.
    + intros j z Hj Hlt. destruct (decide (i = j)) as [->|Hij].
      * rewrite list_lookup_insert_eq in Hj by (by eapply lookup_lt_Some).
        congruence.
      * rewrite list_lookup_insert_ne in Hj by done. eauto.
  - apply findIndex_None, Forall_lookup. intros j z Hj.
    apply findIndex_None in Ho.
    destruct (decide (i = j)) as [->|Hij].
    + rewrite list_lookup_insert_eq in Hj by (by eapply lookup_lt_Some).
      congruence.
    + rewrite list_lookup_insert_ne in Hj by done.
      by eapply (Forall_lookup_1 _ _ _ _ Ho).
Qed.

Lemma findIndex_fmap_None messageId (f : IChatItem → IChatItem)
    (msgs : list IChatItem) :
  (∀ m, msg_id (f m) = msg_id m) →
  findIndex messageId msgs = None →
  findIndex messageId (f <$> msgs) = None.
Proof.
  intros Hf. rewrite !findIndex_None, Forall_fmap. intros Hall.
  eapply Forall_impl; [exact Hall|]. intros m Hm. simpl. by rewrite Hf.
Qed.

Lemma findIndex_insert_None messageId (msgs : list IChatItem) i m m' :
  msgs !! i = Some m →
  msg_id m' = msg_id m →
  findIndex messageId msgs = None →
  findIndex messageId (<[i := m']> msgs) = None.
Proof.
  rewrite !findIndex_None, !Forall_lookup. intros Hi Hid Hall j y Hj.
  destruct (decide (i = j)) as [->|Hne].
  - rewrite list_lookup_insert_eq in Hj by (by eapply lookup_lt_Some).
    simplify_eq. rewrite Hid. by eapply Hall.
  - rewrite list_lookup_insert_ne in Hj by done. by eapply Hall.
Qed.

(** X1. No intent other than [CHAT_CLEAR] removes or reorders a message or
    changes its identity: the message at each position keeps its id, role,
    attachments and approval payload. *)
Theorem messages_are_kept
    (now : string) (s : AppState) (a : AppAction) (j : nat) (m : IChatItem) :
  a ≠ CHAT_CLEAR →
  messages (chat s) !! j = Some m →
  ∃ m',
    messages (chat (appReducer now s a)) !! j = Some m'
    ∧ msg_id m' = msg_id m
    ∧ msg_role m' = msg_role m
    ∧ msg_attachments m' = msg_attachments m
    ∧ msg_mcpApproval m' = msg_mcpApproval m.
Proof.
  intros Hclear Hj. unfold appReducer.
  destruct a as [| | |cid mid|mid content|mid anns| | | | | | |]; simpl;
    try done; try (by exists m);
    try (exists m; split; [by apply lookup_app_l_Some|done]).
  - destruct (findIndex mid (messages (chat s))) as [[i m0]|] eqn:Hf; simpl;
      [|by exists m].
    apply findIndex_Some in Hf as [Hi _].
    destruct (decide (i = j)) as [->|Hne].
    + simplify_eq. eexists.
      split; [apply list_lookup_insert_eq; by eapply lookup_lt_Some|done].
    + exists m. by rewrite list_lookup_insert_ne.
  - destruct (findIndex mid (messages (chat s))) as [[i m0]|] eqn:Hf; simpl;
      [|by exists m].
    apply findIndex_Some in Hf as [Hi _].
    destruct (decide (i = j)) as [->|Hne].
    + simplify_eq. eexists.
      split; [apply list_lookup_insert_eq; by eapply lookup_lt_Some|done].
    + exists m. by rewrite list_lookup_insert_ne.
  - rewrite list_lookup_fmap, Hj. simpl. case_decide; by eexists.
Qed.

Lemma messages_are_kept_witness :
  ∃ m',
    messages (chat (appReducer "t" twoAnswers
                      (CHAT_STREAM_COMPLETE sampleUsage (Some "resp-2")))) !! 1
    = Some m'
    ∧ msg_id m' = msg_id (sampleAssistant "m2" "Wor")
    ∧ msg_role m' = msg_role (sampleAssistant "m2" "Wor")
    ∧ msg_attachments m' = msg_attachments (sampleAssistant "m2" "Wor")
    ∧ msg_mcpApproval m' = msg_mcpApproval (sampleAssistant "m2" "Wor").
Proof.
  apply (messages_are_kept "t" twoAnswers
           (CHAT_STREAM_COMPLETE sampleUsage (Some "resp-2")) 1
           (sampleAssistant "m2" "Wor")).
  - discriminate.
  - reflexivity.
Defined.

(** X2. Two chunks for the same message amount to one chunk that carries
    their concatenation, whether or not the message exists. *)
Theorem chunks_compose
    (now now' : string) (s : AppState) (messageId c1 c2 : string) :
  appReducer now' (appReducer now s (CHAT_STREAM_CHUNK messageId c1))
    (CHAT_STREAM_CHUNK messageId c2)
  = appReducer now s (CHAT_STREAM_CHUNK messageId (c1 +:+ c2)).
Proof.
  unfold appReducer. simpl.
  destruct (findIndex messageId (messages (chat s))) as [[i m]|] eqn:Hf; simpl.
  - pose proof (findIndex_Some _ _ _ _ Hf) as [_ Hid].
    rewrite (findIndex_insert _ _ _ m _ Hf) by done. simpl.
    rewrite list_insert_insert_eq. unfold withContent. simpl.
    by rewrite string_app_assoc.
  - by rewrite Hf.
Qed.

(** X3. Two annotation intents for the same message amount to one that
    carries both lists, in order. *)
Theorem annotations_compose
    (now now' : string) (s : AppState) (messageId : string)
    (a1 a2 : list IAnnotation) :
  appReducer now' (appReducer now s (CHAT_STREAM_ANNOTATIONS messageId a1))
    (CHAT_STREAM_ANNOTATIONS messageId a2)
  = appReducer now s (CHAT_STREAM_ANNOTATIONS messageId (a1 ++ a2)).
Proof.
  unfold appReducer. simpl.
  destruct (findIndex messageId (messages (chat s))) as [[i m]|] eqn:Hf; simpl.
  - pose proof (findIndex_Some _ _ _ _ Hf) as [_ Hid].
    rewrite (findIndex_insert _ _ _ m _ Hf) by done. simpl.
    rewrite list_insert_insert_eq. unfold withAnnotations. simpl.
    by rewrite app_assoc.
  - by rewrite Hf.
Qed.

(** X4. Text and annotations may arrive in either order: a chunk intent and
    an annotation intent commute, whichever messages they address and
    whether or not those exist. *)
Theorem chunk_and_annotations_commute
    (now now' : string) (s : AppState) (id1 id2 content : string)
    (annotations : list IAnnotation) :
  appReducer now' (appReducer now s (CHAT_STREAM_CHUNK id1 content))
    (CHAT_STREAM_ANNOTATIONS id2 annotations)
  = appReducer now' (appReducer now s (CHAT_STREAM_ANNOTATIONS id2 annotations))
      (CHAT_STREAM_CHUNK id1 content).
Proof.
  unfold appReducer. simpl.
  destruct (findIndex id1 (messages (chat s))) as [[i m1]|] eqn:Hf1;
    destruct (findIndex id2 (messages (chat s))) as [[k m2]|] eqn:Hf2;
    simpl; rewrite ?Hf1, ?Hf2; simpl.
  - pose proof (findIndex_Some _ _ _ _ Hf1) as [Hi Hid1].
    pose proof (findIndex_Some _ _ _ _ Hf2) as [Hk Hid2].
    destruct (decide (id2 = id1)) as [->|Hne].
    + simplify_eq.
      rewrite (findIndex_insert _ _ _ m1 _ Hf1) by done.
      rewrite (findIndex_insert _ _ _ m1 _ Hf1) by done. simpl.
      by rewrite !list_insert_insert_eq.
    + assert (i ≠ k) as Hik by (intros ->; congruence).
      rewrite (findIndex_insert_ne id1 id2 _ i m1) by done.
      rewrite (findIndex_insert_ne id2 id1 _ k m2) by done.
      rewrite Hf1, Hf2. simpl. by rewrite list_insert_insert_ne.
  - pose proof (findIndex_Some _ _ _ _ Hf1) as [Hi Hid1].
    by rewrite (findIndex_insert_None id2 _ i m1).
  - pose proof (findIndex_Some _ _ _ _ Hf2) as [Hk Hid2].
    by rewrite (findIndex_insert_None id1 _ k m2).
  - done.
Qed.

(** X5. [CHAT_STREAM_COMPLETE] never touches the text of a message, and
    when no stream is active ([streamingMessageId] absent, as after a
    cancellation) it changes no message at all; it still returns the chat to
    idle, re-enables the input and records a non-empty response id. *)
Theorem stream_complete_keeps_content
    (now : string) (s : AppState) (usage : IUsageInfo)
    (responseId : option string) :
  msg_content <$> messages (chat (appReducer now s
                                    (CHAT_STREAM_COMPLETE usage responseId)))
  = msg_content <$> messages (chat s)
  ∧ (streamingMessageId (chat s) = None →
     messages (chat (appReducer now s (CHAT_STREAM_COMPLETE usage responseId)))
     = messages (chat s))
  ∧ chat_status (chat (appReducer now s (CHAT_STREAM_COMPLETE usage responseId)))
    = Idle
  ∧ chatInputEnabled
      (ui (appReducer now s (CHAT_STREAM_COMPLETE usage responseId))) = true
  ∧ (truthy responseId = true →
     lastResponseId
       (chat (appReducer now s (CHAT_STREAM_COMPLETE usage responseId)))
     = responseId).
Proof.
  unfold appReducer. simpl. split_and!; try done.
  - rewrite <- list_fmap_compose. apply list_fmap_ext.
    intros j m _. simpl. by case_decide.
  - intros ->. rewrite <- (list_fmap_id (messages (chat s))) at 2.
    apply list_fmap_ext. intros j m _. by rewrite decide_False.
  - intros Hrid. unfold jsOr. by rewrite Hrid.
Qed.

Lemma reducer_keeps_streamingInvariant (now : string) (s : AppState)
    (a : AppAction) :
  streamingInvariant s → streamingInvariant (appReducer now s a).
Proof.
  unfold streamingInvariant, appReducer. intros Hinv.
  destruct a as [| | |cid mid|mid content|mid anns| | | | | | |]; simpl;
    try done.
  - destruct (findIndex mid (messages (chat s))) as [[i m]|]; simpl; done.
  - destruct (findIndex mid (messages (chat s))) as [[i m]|]; simpl; done.
Qed.

(** X6. In every state the reducer can reach from the initial state, while
    the chat status is [streaming] the chat input is disabled and
    [streamingMessageId] is set. *)
Theorem streaming_disables_input (now : string) (acts : list AppAction) :
  streamingInvariant (dispatchAll now initialAppState acts).
Proof.
  assert (∀ s, streamingInvariant s → streamingInvariant (dispatchAll now s acts))
    as Hgen.
  { induction acts as [|a acts IH]; intros s Hs; [done|].
    rewrite dispatchAll_cons. apply IH.
    by apply reducer_keeps_streamingInvariant. }
  apply Hgen. unfold streamingInvariant. simpl. discriminate.
Qed.

(** X7. [lastResponseId], once non-null, stays non-null under every intent
    other than [CHAT_CLEAR], and keeps its value unless a
    [CHAT_STREAM_COMPLETE] carries a response id. *)
Theorem last_response_id_is_kept
    (now : string) (s : AppState) (a : AppAction) :
  lastResponseId (chat s) ≠ None →
  a ≠ CHAT_CLEAR →
  lastResponseId (chat (appReducer now s a)) ≠ None
  ∧ ((∀ usage rid, a ≠ CHAT_STREAM_COMPLETE usage (Some rid)) →
     lastResponseId (chat (appReducer now s a)) = lastResponseId (chat s)).
Proof.
  intros Hset Hclear. unfold appReducer.
  destruct a as [| | |cid mid|mid content|mid anns| |usage rid| | | | |];
    simpl; try done.
  - destruct (findIndex mid (messages (chat s))) as [[i m]|]; by split.
  - destruct (findIndex mid (messages (chat s))) as [[i m]|]; by split.
  - unfold jsOr. destruct rid as [rid|]; simpl; [|done].
    case_decide; simpl; split; try done.
    all: intros Hne; by destruct (Hne usage rid).
Qed.

Lemma last_response_id_is_kept_witness :
  lastResponseId
    (chat (appReducer "t" twoAnswers (CHAT_STREAM_COMPLETE sampleUsage None)))
  ≠ None
  ∧ ((∀ usage rid,
        CHAT_STREAM_COMPLETE sampleUsage None
        ≠ CHAT_STREAM_COMPLETE usage (Some rid)) →
     lastResponseId
       (chat (appReducer "t" twoAnswers (CHAT_STREAM_COMPLETE sampleUsage None)))
     = lastResponseId (chat twoAnswers)).
Proof.
  apply (last_response_id_is_kept "t" twoAnswers
           (CHAT_STREAM_COMPLETE sampleUsage None)); discriminate.
Defined.

(** X8. Chat intents never touch the authentication state, and the two
    authentication intents never touch the chat or the input flag. *)
Theorem auth_and_chat_are_separate
    (now : string) (s : AppState) (a : AppAction) :
  (actionType a ≠ "AUTH_INITIALIZED" → actionType a ≠ "AUTH_TOKEN_EXPIRED" →
   auth (appReducer now s a) = auth s)
  ∧ (actionType a = "AUTH_INITIALIZED" ∨ actionType a = "AUTH_TOKEN_EXPIRED" →
     chat (appReducer now s a) = chat s ∧ ui (appReducer now s a) = ui s).
Proof.
  unfold appReducer.
  destruct a as [| | |cid mid|mid content|mid anns| | | | | | |]; simpl;
    (split; [intros H1 H2|intros [H1|H1]]); try done.
  all: destruct (findIndex mid (messages (chat s))) as [[i m]|]; done.
Qed.

(** * Further properties of the stream loop *)

Section StreamLoop.
Context `{Imports}.

Lemma processLines_events messageId (lines : list string) :
  ∀ v,
    processLines messageId v lines
    = processEvents messageId v (omap parseSseLine lines).
Proof.
  induction lines as [|line lines IH]; intros v; simpl; [done|].
  destruct (parseSseLine line) as [event|]; simpl; [|apply IH].
  destruct (handleEvent messageId v event) as [acts [v'| |e]]; try done.
  by rewrite IH.
Qed.

(** How an undisturbed stream, followed by any reads, ends once the [for]
    loop has left the stream's lines by [return] or [throw]. *)
Lemma processStream_stops messageId cur σ (chunks : list string)
    (rest : list ReadStep) acts :
  streamCancelled σ = false →
  (processLines messageId
     {| newConversationId := cur; lastChunkContent := None |}
     (streamLines "" chunks) = (acts, ReturnDone) →
   processStream {| body := Some (valueReads chunks ++ rest) |} messageId cur σ
   = (acts, σ, Normal ()))
  ∧ (∀ e,
       processLines messageId
         {| newConversationId := cur; lastChunkContent := None |}
         (streamLines "" chunks) = (acts, Throw e) →
       processStream {| body := Some (valueReads chunks ++ rest) |} messageId cur σ
       = (acts ++ (catchBlock messageId cur false e).1, σ,
          (catchBlock messageId cur false e).2)).
Proof.
  intros Hflag. destruct σ as [ctl flag]. simpl in Hflag. subst flag.
  split; [intros Hp|intros e Hp].
  all: pose proof (readLoop_valueReads messageId cur chunks _ "" _ _ Hp) as Hl.
  all: unfold processStream, loopStart; simpl.
  all: rewrite readLoop_app, Hl, readLoop_Exited; simpl.
  all: by rewrite app_nil_r.
Qed.

(** X9. Once the cancellation flag is set, [processStream] issues no read
    and dispatches nothing: whatever the body would deliver, it returns
    normally and leaves the service as it found it. *)
Theorem cancelled_stream_is_not_read
    (messageId : string) (currentConversationId : option string)
    (σ : ServiceState) (reads : list ReadStep) :
  streamCancelled σ = true →
  processStream {| body := Some reads |} messageId currentConversationId σ
  = ([], σ, Normal ()).
Proof.
  intros Hflag. destruct σ as [ctl flag]. simpl in Hflag. subst flag.
  unfold processStream, loopStart. simpl.
  destruct reads as [|r reads]; simpl; [done|].
  by rewrite readLoop_Exited.
Qed.

(** X10. A [done] event ends the stream: the lines after it and every later
    read are ignored, and [processStream] returns normally with the intents
    dispatched before it. *)
Theorem done_event_ends_stream
    (messageId : string) (currentConversationId : option string)
    (σ : ServiceState) (chunks : list string) (rest : list ReadStep)
    (pre post : list string) (line : string) (err : option ErrorField)
    (acts : list AppAction) (v : LoopVars) :
  streamCancelled σ = false →
  streamLines "" chunks = pre ++ line :: post →
  parseSseLine line = Some {| data_error := err; payload := EvDone |} →
  truthyError err = false →
  processLines messageId
    {| newConversationId := currentConversationId; lastChunkContent := None |}
    pre
  = (acts, Continue v) →
  processStream {| body := Some (valueReads chunks ++ rest) |}
    messageId currentConversationId σ
  = (acts, σ, Normal ()).
Proof.
  intros Hflag Hlines Hparse Herr Hpre.
  apply processStream_stops; [done|].
  rewrite Hlines, processLines_app, Hpre. simpl. rewrite Hparse.
  unfold handleEvent. simpl. rewrite Herr. by rewrite app_nil_r.
Qed.

(** X11. An [error] event makes [processStream] dispatch [CHAT_ERROR] twice
    (in the [switch], and again in the [catch] block that receives the
    error thrown there) and rethrow the first error; the lines after the
    event and every later read are ignored. The second error is the first
    one when [createAppError] builds [Error] instances, a fresh [STREAM]
    error otherwise. *)
Theorem error_event_is_dispatched_twice
    (messageId : string) (currentConversationId : option string)
    (σ : ServiceState) (chunks : list string) (rest : list ReadStep)
    (pre post : list string) (line : string) (err : option ErrorField)
    (message : option string) (acts : list AppAction) (v : LoopVars) :
  streamCancelled σ = false →
  streamLines "" chunks = pre ++ line :: post →
  parseSseLine line = Some {| data_error := err; payload := EvError message |} →
  truthyError err = false →
  processLines messageId
    {| newConversationId := currentConversationId; lastChunkContent := None |}
    pre
  = (acts, Continue v) →
  processStream {| body := Some (valueReads chunks ++ rest) |}
    messageId currentConversationId σ
  = (acts
     ++ [CHAT_ERROR
           (streamError ("Stream error for message " +:+ messageId +:+ ": "
                         +:+ interpolate "undefined" message));
         CHAT_ERROR
           (if appErrorIsError then
              streamError ("Stream error for message " +:+ messageId +:+ ": "
                           +:+ interpolate "undefined" message)
            else
              streamError ("Stream processing failed: [object Object]"
                           +:+ " (Conversation: "
                           +:+ interpolate "null" currentConversationId
                           +:+ ", Message: " +:+ messageId +:+ ")"))],
     σ,
     Throws (ThrownAppError
               (streamError ("Stream error for message " +:+ messageId +:+ ": "
                             +:+ interpolate "undefined" message)))).
Proof.
  intros Hflag Hlines Hparse Herr Hpre.
  set (e1 := streamError ("Stream error for message " +:+ messageId +:+ ": "
                          +:+ interpolate "undefined" message)).
  pose proof (processStream_stops messageId currentConversationId σ chunks rest
                (acts ++ [CHAT_ERROR e1]) Hflag) as [_ Hstop].
  rewrite (Hstop (ThrownAppError e1)).
  - unfold catchBlock. simpl. rewrite <- app_assoc. simpl.
    by destruct appErrorIsError.
  - rewrite Hlines, processLines_app, Hpre. simpl. rewrite Hparse.
    unfold handleEvent. simpl. by rewrite Herr.
Qed.

End StreamLoop.

Section StreamInvariants.
Context `{Imports}.

Lemma countStarts_app (l k : list AppAction) :
  countStarts (l ++ k) = countStarts l + countStarts k.
Proof. unfold countStarts. by rewrite filter_app, length_app. Qed.

Lemma countStarts_cons a (l : list AppAction) :
  countStarts (a :: l)
  = ((if startsConversation a then 1 else 0) + countStarts l)%nat.
Proof.
  unfold countStarts. rewrite filter_cons.
  destruct (startsConversation a); by case_decide.
Qed.

Lemma handleEvent_budget messageId v event acts st :
  handleEvent messageId v event = (acts, st) →
  (countStarts acts + stepBudget st ≤ budget v)%nat.
Proof.
  unfold handleEvent. intros Hh.
  destruct (truthyError (data_error event)).
  { simplify_eq. rewrite countStarts_cons. simpl. unfold countStarts. simpl. lia. }
  destruct (payload event) as [cid|content|[[|a l]|]|[req|]|usage rid| |msg|ty].
  - unfold budget. destruct (truthy (newConversationId v)) eqn:Hv; simplify_eq.
    + unfold countStarts, stepBudget, budget. simpl. rewrite Hv. lia.
    + rewrite countStarts_cons. unfold countStarts, stepBudget, budget. simpl.
      destruct (truthy cid); simpl; lia.
  - case_decide; simplify_eq; rewrite ?countStarts_cons;
      unfold countStarts, stepBudget, budget; simpl; lia.
  - simplify_eq. unfold countStarts. simpl. lia.
  - simplify_eq. rewrite countStarts_cons. unfold countStarts. simpl. lia.
  - simplify_eq. unfold countStarts. simpl. lia.
  - simplify_eq. rewrite countStarts_cons. unfold countStarts. simpl. lia.
  - simplify_eq. unfold countStarts. simpl. lia.
  - simplify_eq. rewrite countStarts_cons. unfold countStarts. simpl. lia.
  - simplify_eq. unfold countStarts. simpl. lia.
  - simplify_eq. rewrite countStarts_cons. unfold countStarts. simpl. lia.
  - simplify_eq. unfold countStarts. simpl. lia.
Qed.

Lemma processLines_budget messageId (lines : list string) :
  ∀ v acts st,
    processLines messageId v lines = (acts, st) →
    (countStarts acts + stepBudget st ≤ budget v)%nat.
Proof.
  induction lines as [|line lines IH]; intros v acts st Hp; simpl in Hp.
  - simplify_eq. simpl. unfold countStarts. simpl. lia.
  - destruct (parseSseLine line) as [event|]; [|by eapply IH].
    destruct (handleEvent messageId v event) as [acts0 st0] eqn:Hh.
    apply handleEvent_budget in Hh.
    destruct st0 as [v'| |e]; simplify_eq; try done.
    destruct (processLines messageId v' lines) as [acts1 st1] eqn:Hrest.
    simplify_eq. apply IH in Hrest. rewrite countStarts_app. simpl in Hh. lia.
Qed.

Lemma catchBlock_no_start messageId cur cancelled e :
  countStarts (catchBlock messageId cur cancelled e).1 = 0.
Proof.
  unfold catchBlock. destruct (isAbortError e && cancelled); [done|].
  simpl. by rewrite countStarts_cons.
Qed.

Lemma iteration_budget messageId cur st r acts st' :
  iteration messageId cur st r = (acts, st') →
  (countStarts acts + loopBudget st' ≤ loopBudget st)%nat.
Proof.
  unfold iteration. intros Hi.
  destruct st as [[|] v buffer|c0 r0]; simplify_eq/=;
    [unfold countStarts; simpl; lia| |unfold countStarts; simpl; lia].
  destruct (readResult r) as [chunk|e].
  - destruct (splitSseBuffer (buffer +:+ chunk)) as [lines remaining].
    destruct (processLines messageId v lines) as [acts0 st0] eqn:Hp.
    apply processLines_budget in Hp.
    destruct st0 as [v'| |e]; simplify_eq/=; try done.
    pose proof (catchBlock_no_start messageId cur
                  (default false (flagWrite r)) e) as Hc.
    destruct (catchBlock messageId cur (default false (flagWrite r)) e)
      as [acts1 c1].
    simplify_eq/=. rewrite countStarts_app. lia.
  - pose proof (catchBlock_no_start messageId cur
                  (default false (flagWrite r)) e) as Hc.
    destruct (catchBlock messageId cur (default false (flagWrite r)) e)
      as [acts1 c1].
    simplify_eq/=. lia.
Qed.

Lemma readLoop_budget messageId cur (reads : list ReadStep) :
  ∀ st acts st',
    readLoop messageId cur st reads = (acts, st') →
    (countStarts acts + loopBudget st' ≤ loopBudget st)%nat.
Proof.
  induction reads as [|r reads IH]; intros st acts st' Hr; simpl in Hr.
  - simplify_eq. unfold countStarts. simpl. lia.
  - destruct (iteration messageId cur st r) as [acts0 st0] eqn:Hi.
    destruct (readLoop messageId cur st0 reads) as [acts1 st1] eqn:Hrest.
    simplify_eq. apply iteration_budget in Hi. apply IH in Hrest.
    rewrite countStarts_app. lia.
Qed.

(** X12. The conversation id is accepted once per stream: whatever the
    body delivers, [processStream] dispatches at most one
    [CHAT_START_STREAM] that carries a non-empty conversation id, and none
    when the stream was opened with a non-empty conversation id. *)
Theorem conversation_id_accepted_once
    (response : Response) (messageId : string)
    (currentConversationId : option string) (σ : ServiceState) :
  (countStarts (emitted (processStream response messageId
                           currentConversationId σ))
   ≤ (if truthy currentConversationId then 0 else 1))%nat.
Proof.
  unfold processStream, emitted. destruct response as [[reads|]]; simpl.
  - destruct (readLoop messageId currentConversationId
                (loopStart (streamCancelled σ) currentConversationId) reads)
      as [acts st] eqn:Hr.
    apply readLoop_budget in Hr. destruct (loopEnd st). simpl in *.
    unfold budget in Hr. simpl in Hr. lia.
  - unfold mbind, M_bind, bind, dispatch, throw. simpl.
    unfold countStarts. simpl. lia.
Qed.

Lemma handleEvent_streamIntent messageId v event acts st :
  handleEvent messageId v event = (acts, st) →
  Forall (streamIntent messageId) acts.
Proof.
  unfold handleEvent. intros Hh.
  destruct (truthyError (data_error event)); [by simplify_eq; repeat constructor|].
  destruct (payload event) as [cid|content|[[|a l]|]|[req|]|usage rid| |msg|ty];
    repeat case_match; simplify_eq; by repeat constructor.
Qed.

Lemma processLines_streamIntent messageId (lines : list string) :
  ∀ v acts st,
    processLines messageId v lines = (acts, st) →
    Forall (streamIntent messageId) acts.
Proof.
  induction lines as [|line lines IH]; intros v acts st Hp; simpl in Hp.
  - by simplify_eq.
  - destruct (parseSseLine line) as [event|]; [|by eapply IH].
    destruct (handleEvent messageId v event) as [acts0 st0] eqn:Hh.
    apply handleEvent_streamIntent in Hh.
    destruct st0 as [v'| |e]; simplify_eq; try done.
    destruct (processLines messageId v' lines) as [acts1 st1] eqn:Hrest.
    simplify_eq. apply Forall_app. split; [done|by eapply IH].
Qed.

Lemma catchBlock_streamIntent messageId cur cancelled e :
  Forall (streamIntent messageId) (catchBlock messageId cur cancelled e).1.
Proof. unfold catchBlock. case_match; by repeat constructor. Qed.

Lemma iteration_streamIntent messageId cur st r acts st' :
  iteration messageId cur st r = (acts, st') →
  Forall (streamIntent messageId) acts.
Proof.
  unfold iteration. intros Hi.
  destruct st as [[|] v buffer|c0 r0]; simplify_eq/=; try done.
  destruct (readResult r) as [chunk|e].
  - destruct (splitSseBuffer (buffer +:+ chunk)) as [lines remaining].
    destruct (processLines messageId v lines) as [acts0 st0] eqn:Hp.
    apply processLines_streamIntent in Hp.
    destruct st0 as [v'| |e]; simplify_eq/=; try done.
    pose proof (catchBlock_streamIntent messageId cur
                  (default false (flagWrite r)) e) as Hc.
    destruct (catchBlock messageId cur (default false (flagWrite r)) e)
      as [acts1 c1].
    simplify_eq/=. by apply Forall_app.
  - pose proof (catchBlock_streamIntent messageId cur
                  (default false (flagWrite r)) e) as Hc.
    destruct (catchBlock messageId cur (default false (flagWrite r)) e)
      as [acts1 c1].
    by simplify_eq/=.
Qed.

Lemma readLoop_streamIntent messageId cur (reads : list ReadStep) :
  ∀ st acts st',
    readLoop messageId cur st reads = (acts, st') →
    Forall (streamIntent messageId) acts.
Proof.
  induction reads as [|r reads IH]; intros st acts st' Hr; simpl in Hr.
  - by simplify_eq.
  - destruct (iteration messageId cur st r) as [acts0 st0] eqn:Hi.
    destruct (readLoop messageId cur st0 reads) as [acts1 st1] eqn:Hrest.
    simplify_eq. apply Forall_app. split.
    + by eapply iteration_streamIntent.
    + by eapply IH.
Qed.

(** X13. Whatever the body delivers, every intent [processStream]
    dispatches is a [CHAT_START_STREAM], [CHAT_STREAM_CHUNK],
    [CHAT_STREAM_ANNOTATIONS] or [CHAT_MCP_APPROVAL_REQUEST] for the message
    id it was given, a [CHAT_STREAM_COMPLETE] or a [CHAT_ERROR]: it never
    addresses another message, and never sends, adds, cancels or clears. *)
Theorem stream_intents_address_the_message
    (response : Response) (messageId : string)
    (currentConversationId : option string) (σ : ServiceState) :
  Forall (streamIntent messageId)
    (emitted (processStream response messageId currentConversationId σ)).
Proof.
  unfold processStream, emitted. destruct response as [[reads|]]; simpl.
  - destruct (readLoop messageId currentConversationId
                (loopStart (streamCancelled σ) currentConversationId) reads)
      as [acts st] eqn:Hr.
    apply readLoop_streamIntent in Hr. by destruct (loopEnd st).
  - unfold mbind, M_bind, bind, dispatch, throw. simpl. by repeat constructor.
Qed.

(** The intents and the outcome of an undisturbed stream, read off its
    events. *)
Lemma processStream_events messageId cur σ (chunks : list string) :
  streamCancelled σ = false →
  processStream {| body := Some (valueReads chunks) |} messageId cur σ
  = match processEvents messageId
            {| newConversationId := cur; lastChunkContent := None |}
            (streamEvents chunks) with
    | (acts, Throw e) =>
        (acts ++ (catchBlock messageId cur false e).1, σ,
         (catchBlock messageId cur false e).2)
    | (acts, _) => (acts, σ, Normal ())
    end.
Proof.
  intros Hflag. destruct σ as [ctl flag]. simpl in Hflag. subst flag.
  unfold streamEvents. rewrite <- processLines_events.
  destruct (processLines messageId
              {| newConversationId := cur; lastChunkContent := None |}
              (streamLines "" chunks)) as [acts st] eqn:Hp.
  pose proof (readLoop_valueReads messageId cur chunks _ "" _ _ Hp) as Hl.
  unfold processStream, loopStart. simpl.
  destruct st as [v'| |e].
  - destruct Hl as [b' ->]. done.
  - by rewrite Hl.
  - by rewrite Hl.
Qed.

(** X14. How the bytes of an undisturbed stream are cut into reads does not
    matter: two streams whose lines parse to the same sequence of events
    make [processStream] dispatch the same intents, end the same way and
    leave the same service state. *)
Theorem same_events_same_intents
    (messageId : string) (currentConversationId : option string)
    (σ : ServiceState) (chunks chunks' : list string) :
  streamCancelled σ = false →
  streamEvents chunks = streamEvents chunks' →
  processStream {| body := Some (valueReads chunks) |}
    messageId currentConversationId σ
  = processStream {| body := Some (valueReads chunks') |}
      messageId currentConversationId σ.
Proof.
  intros Hflag Hev. rewrite !processStream_events by done. by rewrite Hev.
Qed.

End StreamInvariants.

Lemma cancelled_stream_is_not_read_witness :
  processStream {| body := Some (valueReads helloChunks) |} "m1" None
    cancelledService
  = ([], cancelledService, Normal ()).
Proof.
  apply (cancelled_stream_is_not_read "m1" None cancelledService
           (valueReads helloChunks)).
  reflexivity.
Defined.

Lemma done_event_ends_stream_witness :
  processStream {| body := Some (valueReads doneChunks ++ []) |} "m1" None
    idleService
  = ([CHAT_STREAM_CHUNK "m1" "Hi"], idleService, Normal ()).
Proof.
  apply (done_event_ends_stream "m1" None idleService doneChunks []
           ["cHi"] ["cignored"; "cmore"] "d" None
           [CHAT_STREAM_CHUNK "m1" "Hi"]
           {| newConversationId := None; lastChunkContent := Some "Hi" |});
    reflexivity.
Defined.

Lemma error_event_is_dispatched_twice_witness :
  processStream {| body := Some (valueReads errorChunks ++ []) |} "m1" None
    idleService
  = ([CHAT_STREAM_CHUNK "m1" "Hi"]
     ++ [CHAT_ERROR
           (streamError ("Stream error for message " +:+ "m1" +:+ ": "
                         +:+ interpolate "undefined" (Some "boom")));
         CHAT_ERROR
           (if appErrorIsError then
              streamError ("Stream error for message " +:+ "m1" +:+ ": "
                           +:+ interpolate "undefined" (Some "boom"))
            else
              streamError ("Stream processing failed: [object Object]"
                           +:+ " (Conversation: "
                           +:+ interpolate "null" None
                           +:+ ", Message: " +:+ "m1" +:+ ")"))],
     idleService,
     Throws (ThrownAppError
               (streamError ("Stream error for message " +:+ "m1" +:+ ": "
                             +:+ interpolate "undefined" (Some "boom"))))).
Proof.
  apply (error_event_is_dispatched_twice "m1" None idleService errorChunks []
           ["cHi"] ["cignored"] "eboom" None (Some "boom")
           [CHAT_STREAM_CHUNK "m1" "Hi"]
           {| newConversationId := None; lastChunkContent := Some "Hi" |});
    reflexivity.
Defined.

Lemma same_events_same_intents_witness :
  processStream {| body := Some (valueReads helloChunks) |} "m1" None idleService
  = processStream {| body := Some (valueReads helloChunksRecut) |} "m1" None
      idleService.
Proof.
  apply (same_events_same_intents "m1" None idleService helloChunks
           helloChunksRecut); reflexivity.
Defined.

(** ** Retransmitted chunks *)

Lemma distinctFromPredecessor_repeat (pre post : list string) (p : string) :
  ∀ prev,
    distinctFromPredecessor prev (pre ++ p :: p :: post)
    = distinctFromPredecessor prev (pre ++ p :: post).
Proof.
  induction pre as [|q pre IH]; intros prev; simpl.
  - rewrite (decide_True (P := Some p = Some p)) by done.
    by case_decide.
  - case_decide; by rewrite IH.
Qed.

Section Retransmission.
Context `{Imports}.

Lemma chunk_stream_intents messageId cur σ (chunks ps : list string) :
  streamCancelled σ = false →
  Forall2 isChunkEvent (streamEvents chunks) ps →
  processStream {| body := Some (valueReads chunks) |} messageId cur σ
  = (CHAT_STREAM_CHUNK messageId <$> distinctFromPredecessor None ps, σ,
     Normal ()).
Proof.
  intros Hflag Hev. destruct σ as [ctl flag]. simpl in Hflag. subst flag.
  set (v0 := {| newConversationId := cur; lastChunkContent := None |}).
  destruct (processLines_chunks messageId _ v0 ps Hev) as [last Hlines].
  destruct (readLoop_valueReads messageId cur chunks _ "" _ _ Hlines)
    as [buffer' Hloop].
  unfold processStream, loopStart. simpl. fold v0. by rewrite Hloop.
Qed.

(** X15. A chunk that arrives twice in a row counts once: a stream of chunk
    events in which one event is repeated immediately makes [processStream]
    dispatch the same intents, with the same outcome, as the stream without
    the repetition. *)
Theorem repeated_chunk_counts_once
    (messageId : string) (currentConversationId : option string)
    (σ : ServiceState) (chunks chunks' : list string)
    (pre post : list string) (p : string) :
  streamCancelled σ = false →
  Forall2 isChunkEvent (streamEvents chunks) (pre ++ p :: post) →
  Forall2 isChunkEvent (streamEvents chunks') (pre ++ p :: p :: post) →
  processStream {| body := Some (valueReads chunks') |}
    messageId currentConversationId σ
  = processStream {| body := Some (valueReads chunks) |}
      messageId currentConversationId σ.
Proof.
  intros Hflag Hev Hev'.
  rewrite (chunk_stream_intents _ _ _ _ _ Hflag Hev).
  rewrite (chunk_stream_intents _ _ _ _ _ Hflag Hev').
  by rewrite distinctFromPredecessor_repeat.
Qed.

End Retransmission.

Lemma repeated_chunk_counts_once_witness :
  processStream {| body := Some (valueReads helloChunks) |} "m1" None idleService
  = processStream {| body := Some (valueReads helloChunksOnce) |} "m1" None
      idleService.
Proof.
  apply (repeated_chunk_counts_once "m1" None idleService helloChunksOnce
           helloChunks [] ["lo"] "Hel").
  - reflexivity.
  - vm_compute. repeat constructor.
  - vm_compute. repeat constructor.
Defined.

(** * Further properties of the service *)

(** The whole effect of a run of chunk intents for a message that exists:
    the message receives the concatenated payloads; the status, the
    streaming id and the input flag stay. *)
Lemma dispatchAll_chunks_state now messageId (qs : list string) :
  ∀ s i m,
    findIndex messageId (messages (chat s)) = Some (i, m) →
    messages (chat (dispatchAll now s (CHAT_STREAM_CHUNK messageId <$> qs)))
    = <[i := withContent m (msg_content m +:+ concatAll qs)]> (messages (chat s))
    ∧ chat_status (chat (dispatchAll now s (CHAT_STREAM_CHUNK messageId <$> qs)))
      = chat_status (chat s)
    ∧ streamingMessageId
        (chat (dispatchAll now s (CHAT_STREAM_CHUNK messageId <$> qs)))
      = streamingMessageId (chat s)
    ∧ ui (dispatchAll now s (CHAT_STREAM_CHUNK messageId <$> qs)) = ui s.
Proof.
  induction qs as [|q qs IH]; intros s i m Hf.
  - pose proof (findIndex_Some _ _ _ _ Hf) as [Hi _]. simpl.
    rewrite string_app_empty_r, (withContent_same m).
    by rewrite list_insert_id.
  - rewrite fmap_cons, dispatchAll_cons.
    pose proof (findIndex_Some _ _ _ _ Hf) as [_ Hid].
    set (m1 := withContent m (msg_content m +:+ q)).
    assert (findIndex messageId
              (messages (chat (appReducer now s (CHAT_STREAM_CHUNK messageId q))))
            = Some (i, m1)) as Hf1.
    { unfold appReducer, appReducerRef. rewrite Hf. simpl.
      by apply (findIndex_insert _ _ _ m). }
    destruct (IH _ _ _ Hf1) as (-> & -> & -> & ->).
    rewrite concatAll_cons.
    unfold appReducer, appReducerRef. rewrite Hf. simpl.
    rewrite list_insert_insert_eq. subst m1. unfold withContent. simpl.
    by rewrite string_app_assoc.
Qed.

Section Send.
Context `{Imports}.


End Send.


Section SendState.
Context `{Imports}.

(** X17. What a call of [sendMessage] does depends on the service state it
    finds only through the leading [CHAT_CANCEL_STREAM]: apart from that
    intent, dispatched exactly when a controller is installed, the intents
    and the outcome are those of the same call on an idle service. *)
Theorem prior_state_only_adds_cancel
    (env : Env) (messageText : string) (currentConversationId : option string)
    (files : option (list File)) (previousResponseId : option string)
    (σ : ServiceState) :
  emitted (sendMessage env messageText currentConversationId files
             previousResponseId σ)
  = match currentStreamAbort σ with
    | Some _ => [CHAT_CANCEL_STREAM]
    | None => []
    end
    ++ emitted (sendMessage env messageText currentConversationId files
                  previousResponseId idleService)
  ∧ completion (sendMessage env messageText currentConversationId files
                  previousResponseId σ)
    = completion (sendMessage env messageText currentConversationId files
                    previousResponseId idleService).
Proof.
  unfold sendMessage, ensureAuthToken, prepareMessagePayload, emitted,
    completion, idleService.
  unfold mbind, M_bind, bind, tryCatch, getCurrentStreamAbort, await, throw,
    dispatch, setStreamCancelled, setCurrentStreamAbort, mret, M_ret, ret.
  destruct σ as [[ctl|] flag]; cbn [currentStreamAbort streamCancelled].
  all: destruct (getAccessToken env) as [token|e]; cbn -[processStream].
  all: try (destruct (truthy token); cbn -[processStream]).
  all: try (destruct files as [[|f fs]|]; cbn -[processStream]).
  all: repeat match goal with
         | |- context [convertFilesToDataUris ?x] =>
             destruct (convertFilesToDataUris x); cbn -[processStream]
         | |- context [isAbortError ?x] =>
             destruct (isAbortError x); cbn -[processStream]
         | |- context [isTokenExpiredError ?x] =>
             destruct (isTokenExpiredError x); cbn -[processStream]
         end.
  all: try done.
  all: destruct (flagWriteDuringRequest env) as [w|]; cbn -[processStream].
  all: repeat match goal with
         | |- context [initiate ?en ?u ?t ?b] =>
             destruct (initiate en u t b) as [response|e]; cbn -[processStream]
         | |- context [processStream ?r ?m ?c ?st] =>
             destruct (processStream r m c st) as [[acts st'] [[]|e]];
             cbn -[processStream]
         | |- context [isAbortError ?x] =>
             destruct (isAbortError x); cbn -[processStream]
         | |- context [isTokenExpiredError ?x] =>
             destruct (isTokenExpiredError x); cbn -[processStream]
         end.
  all: done.
Qed.

End SendState.

Section Controller.
Context `{Imports}.

Lemma processStream_keeps_controller response messageId cur σ :
  currentStreamAbort (finalState (processStream response messageId cur σ))
  = currentStreamAbort σ.
Proof.
  unfold processStream, finalState. destruct response as [[reads|]]; simpl.
  - destruct (readLoop messageId cur (loopStart (streamCancelled σ) cur) reads)
      as [acts st].
    by destruct (loopEnd st).
  - done.
Qed.

Lemma sendMessage_cancels_first env messageText cur files prev σ ctl :
  currentStreamAbort σ = Some ctl →
  ∃ rest,
    emitted (sendMessage env messageText cur files prev σ)
    = CHAT_CANCEL_STREAM :: rest.
Proof.
  intros Hctl. destruct σ as [c flag]. simpl in Hctl. subst c.
  unfold sendMessage, emitted.
  unfold mbind, M_bind, bind, getCurrentStreamAbort, dispatch,
    setStreamCancelled, setCurrentStreamAbort.
  cbn [currentStreamAbort streamCancelled fst snd app].
  match goal with
  | |- context [tryCatch ?m ?h ?st] =>
      destruct (tryCatch m h st) as [[acts st'] r]
  end.
  by eexists.
Qed.

(** X18. A turn that fails after its request was started leaves its abort
    controller installed. In an undisturbed run (no other call of the
    service while this one is suspended), when token and attachments were
    fine and [sendMessage] throws, [currentStreamAbort] is still set
    afterwards, so the next [sendMessage], whatever its arguments, begins by
    dispatching [CHAT_CANCEL_STREAM] although no stream is running. *)
Theorem failed_turn_leaves_controller
    (env : Env) (messageText : string) (currentConversationId : option string)
    (files : option (list File)) (previousResponseId : option string)
    (σ : ServiceState) (e : Thrown) :
  undisturbed env →
  tokenFails env = false →
  conversionFails files = false →
  completion (sendMessage env messageText currentConversationId files
                previousResponseId σ) = Throws e →
  currentStreamAbort
    (finalState (sendMessage env messageText currentConversationId files
                   previousResponseId σ))
  = Some {| aborted := false |}
  ∧ ∀ env' messageText' currentConversationId' files' previousResponseId',
      ∃ rest,
        emitted (sendMessage env' messageText' currentConversationId' files'
                   previousResponseId'
                   (finalState (sendMessage env messageText
                                  currentConversationId files
                                  previousResponseId σ)))
        = CHAT_CANCEL_STREAM :: rest.
Proof.
  intros _ Htok Hconv Hthrows.
  assert (currentStreamAbort
            (finalState (sendMessage env messageText currentConversationId
                           files previousResponseId σ))
          = Some {| aborted := false |}) as Hctl.
  { revert Htok Hconv Hthrows.
    unfold sendMessage, ensureAuthToken, prepareMessagePayload, tokenFails,
      conversionFails, finalState, completion.
    unfold mbind, M_bind, bind, tryCatch, getCurrentStreamAbort, await, throw,
      dispatch, setStreamCancelled, setCurrentStreamAbort, mret, M_ret, ret.
    destruct σ as [[ctl|] flag]; cbn [currentStreamAbort streamCancelled].
    all: destruct (getAccessToken env) as [token|e0]; cbn -[processStream];
      try done.
    all: destruct (truthy token); cbn -[processStream]; try done.
    all: intros _.
    all: destruct files as [[|f fs]|]; cbn -[processStream].
    all: repeat match goal with
           | |- context [convertFilesToDataUris ?x] =>
               destruct (convertFilesToDataUris x); cbn -[processStream]
           end.
    all: try done.
    all: intros _.
    all: destruct (flagWriteDuringRequest env) as [w|]; cbn -[processStream].
    all: repeat match goal with
           | |- context [initiate ?en ?u ?t ?b] =>
               destruct (initiate en u t b) as [response|e1];
               cbn -[processStream]
           | |- context [processStream ?r ?m ?c ?st] =>
               pose proof (processStream_keeps_controller r m c st) as Hk;
               unfold finalState in Hk;
               destruct (processStream r m c st) as [[acts st'] [[]|e2]];
               cbn -[processStream] in *
           | |- context [isAbortError ?x] =>
               destruct (isAbortError x); cbn -[processStream]
           | |- context [isTokenExpiredError ?x] =>
               destruct (isTokenExpiredError x); cbn -[processStream]
           end.
    all: done. }
  split; [done|].
  intros env' messageText' cur' files' prev'.
  by eapply sendMessage_cancels_first.
Qed.

End Controller.

Lemma failed_turn_leaves_controller_witness :
  currentStreamAbort
    (finalState (sendMessage failingRequestEnv "Hi" None None None idleService))
  = Some {| aborted := false |}
  ∧ ∀ env' messageText' currentConversationId' files' previousResponseId',
      ∃ rest,
        emitted (sendMessage env' messageText' currentConversationId' files'
                   previousResponseId'
                   (finalState (sendMessage failingRequestEnv "Hi" None None
                                  None idleService)))
        = CHAT_CANCEL_STREAM :: rest.
Proof.
  apply (failed_turn_leaves_controller failingRequestEnv "Hi" None None None
           idleService (JsError "Failed to fetch" false)); try reflexivity.
  split; [reflexivity|]. intros url token requestBody response. discriminate.
Defined.

Section Payload.
Context `{Imports}.

(** X19. Attachments are partitioned, not lost: when the files convert,
    [prepareMessagePayload] dispatches nothing, leaves the service as it
    was, keeps the text, and files every converted result exactly once,
    under the image URIs if its MIME type starts with [image/] and under
    the file URIs otherwise. *)
Theorem attachments_are_partitioned
    (text : string) (f : File) (fs : list File)
    (results : list DataUriResult) (σ : ServiceState) :
  convertFilesToDataUris (f :: fs) = Normal results →
  ∃ p,
    prepareMessagePayload text (Some (f :: fs)) σ = ([], σ, Normal p)
    ∧ pl_content p = text
    ∧ pl_attachments p = createAttachmentMetadata results
    ∧ pl_imageDataUris p ++ ((λ x, x.1.1) <$> pl_fileDataUris p)
      ≡ₚ dataUri <$> results
    ∧ length (pl_imageDataUris p)
      = length (filter (λ r, isImage r = true) results)
    ∧ Forall (λ x, isImage {| dataUri := x.1.1; uri_name := x.1.2;
                              mimeType := x.2 |} = false)
        (pl_fileDataUris p).
Proof.
  intros Hc. eexists. split.
  { unfold prepareMessagePayload, tryCatch, mbind, M_bind, bind, await, mret,
      M_ret, ret. rewrite Hc. simpl. reflexivity. }
  simpl. split_and!; try done.
  - assert (∀ l : list DataUriResult,
              (λ x : string * string * string, x.1.1)
                <$> ((λ r, (dataUri r, uri_name r, mimeType r)) <$> l)
              = dataUri <$> l) as ->.
    { intros l. by rewrite <- list_fmap_compose. }
    rewrite <- fmap_app. apply fmap_Permutation.
    apply (filter_app_complement (λ r, isImage r = true)).
  - by rewrite length_fmap.
  - apply Forall_fmap, Forall_forall. intros r Hr.
    apply list_elem_of_filter in Hr as [Hr _]. simpl.
    destruct r as [u n mt]. simpl in *. by destruct (isImage _).
Qed.

End Payload.

Lemma attachments_are_partitioned_witness :
  ∃ p,
    prepareMessagePayload "Hi" (Some [reportFile; pictureFile]) idleService
    = ([], idleService, Normal p)
    ∧ pl_content p = "Hi"
    ∧ pl_attachments p
      = createAttachmentMetadata
          [ {| dataUri := "data:application/pdf;base64,";
               uri_name := "report.pdf"; mimeType := "application/pdf" |};
            {| dataUri := "data:image/png;base64,";
               uri_name := "cat.png"; mimeType := "image/png" |} ]
    ∧ pl_imageDataUris p ++ ((λ x, x.1.1) <$> pl_fileDataUris p)
      ≡ₚ dataUri
           <$> [ {| dataUri := "data:application/pdf;base64,";
                    uri_name := "report.pdf"; mimeType := "application/pdf" |};
                 {| dataUri := "data:image/png;base64,";
                    uri_name := "cat.png"; mimeType := "image/png" |} ]
    ∧ length (pl_imageDataUris p)
      = length (filter (λ r, isImage r = true)
                  [ {| dataUri := "data:application/pdf;base64,";
                       uri_name := "report.pdf"; mimeType := "application/pdf" |};
                    {| dataUri := "data:image/png;base64,";
                       uri_name := "cat.png"; mimeType := "image/png" |} ])
    ∧ Forall (λ x, isImage {| dataUri := x.1.1; uri_name := x.1.2;
                              mimeType := x.2 |} = false)
        (pl_fileDataUris p).
Proof.
  apply (attachments_are_partitioned "Hi" reportFile [pictureFile] _
           idleService).
  reflexivity.
Defined.

Section Approval.
Context `{Imports}.

Lemma processStream_emits_for response messageId cur σ acts σ' r :
  processStream response messageId cur σ = (acts, σ', r) →
  Forall (streamIntent messageId) acts.
Proof.
  unfold processStream. destruct response as [[reads|]]; simpl.
  - destruct (readLoop messageId cur (loopStart (streamCancelled σ) cur) reads)
      as [acts0 st] eqn:Hr.
    apply readLoop_streamIntent in Hr. destruct (loopEnd st).
    by intros [= <- _ _].
  - unfold mbind, M_bind, bind, dispatch, throw. simpl.
    intros [= <- _ _]. by repeat constructor.
Qed.

(** X20. When token acquisition fails (the provider answers [null] or
    throws anything but an abort error), [sendMcpApproval] dispatches one
    [CHAT_ERROR] and nothing else, rethrows, and leaves the service as it
    was, whether or not a stream is in flight. *)
Theorem approval_token_failure_only_reports
    (env : ApprovalEnv) (approvalRequestId : string) (approved : bool)
    (previousResponseId conversationId : string) (σ : ServiceState) :
  answerFails (a_getAccessToken env) = true →
  ∃ error thrown,
    sendMcpApproval env approvalRequestId approved previousResponseId
      conversationId σ
    = ([CHAT_ERROR error], σ, Throws thrown).
Proof.
  unfold answerFails, sendMcpApproval, ensureAuthTokenOf.
  unfold mbind, M_bind, bind, tryCatch, await, throw, dispatch, mret, M_ret,
    ret.
  destruct (a_getAccessToken env) as [token|e]; simpl.
  - destruct (truthy token); [done|]. intros _. simpl. by eexists _, _.
  - destruct (isAbortError e); [done|]. intros _. simpl. by eexists _, _.
Qed.

(** X21. An approval turn never cancels, never sends a user message and
    never reports an expired token: every intent [sendMcpApproval]
    dispatches is the [CHAT_ADD_ASSISTANT_MESSAGE] for the id it drew from
    the clock or an intent of the stream for that id; with a token, the
    first two are that [CHAT_ADD_ASSISTANT_MESSAGE] and a
    [CHAT_START_STREAM] that carries the conversation id. *)
Theorem approval_turn_intents
    (env : ApprovalEnv) (approvalRequestId : string) (approved : bool)
    (previousResponseId conversationId : string) (σ : ServiceState) :
  Forall (λ a, a = CHAT_ADD_ASSISTANT_MESSAGE (pretty (a_dateNow env))
               ∨ streamIntent (pretty (a_dateNow env)) a)
    (emitted (sendMcpApproval env approvalRequestId approved
                previousResponseId conversationId σ))
  ∧ (∀ token, a_getAccessToken env = Normal (Some token) → token ≠ "" →
     ∃ rest,
       emitted (sendMcpApproval env approvalRequestId approved
                  previousResponseId conversationId σ)
       = CHAT_ADD_ASSISTANT_MESSAGE (pretty (a_dateNow env))
         :: CHAT_START_STREAM (Some conversationId) (pretty (a_dateNow env))
         :: rest).
Proof.
  unfold sendMcpApproval, ensureAuthTokenOf, emitted.
  unfold mbind, M_bind, bind, tryCatch, await, throw, dispatch, mret, M_ret,
    ret, setStreamCancelled, setCurrentStreamAbort.
  destruct (a_getAccessToken env) as [token|e]; cbn -[processStream].
  2: { split; [|done].
       destruct (isAbortError e); cbn; by repeat constructor. }
  destruct (truthy token) eqn:Htruthy; cbn -[processStream].
  2: { split; [by repeat constructor|].
       intros t [= ->] Hne. simpl in Htruthy. by rewrite decide_False in Htruthy. }
  destruct (a_flagWriteDuringRequest env) as [w|]; cbn -[processStream].
  all: repeat match goal with
         | |- context [a_initiate ?en ?u ?t ?b] =>
             destruct (a_initiate en u t b) as [response|e1];
             cbn -[processStream]
         | |- context [processStream ?r ?m ?c ?st] =>
             let Hp := fresh "Hp" in
             destruct (processStream r m c st) as [[acts st'] [[]|e2]] eqn:Hp;
             apply processStream_emits_for in Hp;
             cbn -[processStream]
         | |- context [isAbortError ?x] =>
             destruct (isAbortError x); cbn -[processStream]
         end.
  all: split; [|intros _ _ _; by eexists].
  all: repeat (apply Forall_cons; split; [by (left + right)|]).
  all: rewrite ?app_nil_r; try by constructor.
  all: try (eapply Forall_impl; [done|]; by right).
  all: apply Forall_app; split;
    [eapply Forall_impl; [done|]; by right|by repeat constructor].
Qed.

End Approval.

Lemma approval_token_failure_only_reports_witness :
  ∃ error thrown,
    sendMcpApproval noTokenApprovalEnv "req-1" true "conv-9" "conv-9"
      busyService
    = ([CHAT_ERROR error], busyService, Throws thrown).
Proof.
  apply (approval_token_failure_only_reports noTokenApprovalEnv "req-1" true
           "conv-9" "conv-9" busyService).
  reflexivity.
Defined.

(** Proves a disjunction by its first disjunct that holds outright. *)
Ltac pick_disjunct :=
  solve [ done
        | left; done
        | right; left; done
        | right; right; left; done
        | right; right; right; left; done
        | right; right; right; right; done ].

Section Turn.
Context `{Imports}.

(** X24. Every intent [sendMessage] dispatches is the leading
    [CHAT_CANCEL_STREAM], a [CHAT_SEND_MESSAGE], the
    [CHAT_ADD_ASSISTANT_MESSAGE] for the assistant id it drew from the
    clock, an intent of the stream for that id, or [AUTH_TOKEN_EXPIRED]: a
    turn never addresses another message and never clears the chat or an
    error. *)
Theorem turn_intents
    (env : Env) (messageText : string) (currentConversationId : option string)
    (files : option (list File)) (previousResponseId : option string)
    (σ : ServiceState) :
  Forall (λ a, a = CHAT_CANCEL_STREAM
               ∨ actionType a = "CHAT_SEND_MESSAGE"
               ∨ a = CHAT_ADD_ASSISTANT_MESSAGE (pretty (dateNow2 env + 1)%N)
               ∨ streamIntent (pretty (dateNow2 env + 1)%N) a
               ∨ a = AUTH_TOKEN_EXPIRED)
    (emitted (sendMessage env messageText currentConversationId files
                previousResponseId σ)).
Proof.
  unfold sendMessage, ensureAuthToken, prepareMessagePayload, emitted.
  unfold mbind, M_bind, bind, tryCatch, getCurrentStreamAbort, await, throw,
    dispatch, setStreamCancelled, setCurrentStreamAbort, mret, M_ret, ret.
  destruct σ as [[ctl|] flag]; cbn [currentStreamAbort streamCancelled].
  all: destruct (getAccessToken env) as [token|e]; cbn -[processStream].
  all: try (destruct (truthy token); cbn -[processStream]).
  all: try (destruct files as [[|f fs]|]; cbn -[processStream]).
  all: try (destruct (flagWriteDuringRequest env) as [w|]; cbn -[processStream]).
  all: repeat match goal with
         | |- context [convertFilesToDataUris ?x] =>
             destruct (convertFilesToDataUris x); cbn -[processStream]
         | |- context [initiate ?en ?u ?t ?b] =>
             destruct (initiate en u t b) as [response|e1];
             cbn -[processStream]
         | |- context [processStream ?r ?m ?c ?st] =>
             let Hp := fresh "Hp" in
             destruct (processStream r m c st) as [[acts st'] [[]|e2]] eqn:Hp;
             apply processStream_emits_for in Hp;
             cbn -[processStream]
         | |- context [isAbortError ?x] =>
             destruct (isAbortError x); cbn -[processStream]
         | |- context [isTokenExpiredError ?x] =>
             destruct (isTokenExpiredError x); cbn -[processStream]
         end.
  all: repeat (apply Forall_cons; split; [pick_disjunct|]).
  all: rewrite ?app_nil_r; try by constructor.
  all: try (eapply Forall_impl; [done|]; intros; pick_disjunct).
  all: apply Forall_app; split;
    [eapply Forall_impl; [done|]; intros; pick_disjunct|].
  all: repeat (apply Forall_cons; split; [pick_disjunct|]); by constructor.
Qed.

End Turn.

Lemma dispatchAll_app now s (l k : list AppAction) :
  dispatchAll now s (l ++ k) = dispatchAll now (dispatchAll now s l) k.
Proof. unfold dispatchAll. apply foldl_app. Qed.

Lemma dispatchAll_chunks_lastResponseId now messageId (qs : list string) :
  ∀ s,
    lastResponseId
      (chat (dispatchAll now s (CHAT_STREAM_CHUNK messageId <$> qs)))
    = lastResponseId (chat s).
Proof.
  induction qs as [|q qs IH]; intros s; [done|].
  rewrite fmap_cons, dispatchAll_cons, IH. unfold appReducer. simpl.
  by destruct (findIndex messageId (messages (chat s))) as [[i m]|].
Qed.

Section Completion.
Context `{Imports}.

Lemma processEvents_app messageId (l1 l2 : list SseEvent) :
  ∀ v,
    processEvents messageId v (l1 ++ l2)
    = match processEvents messageId v l1 with
      | (acts, Continue v') =>
          let '(acts', s) := processEvents messageId v' l2 in (acts ++ acts', s)
      | r => r
      end.
Proof.
  induction l1 as [|event l1 IH]; intros v; simpl.
  - by destruct (processEvents messageId v l2).
  - destruct (handleEvent messageId v event) as [acts [v'| |e]]; try done.
    rewrite IH.
    destruct (processEvents messageId v' l1) as [acts1 [v1| |e1]]; try done.
    destruct (processEvents messageId v1 l2) as [acts2 s2].
    by rewrite app_assoc.
Qed.

Lemma processEvents_chunks messageId (events : list SseEvent) :
  ∀ v ps,
    Forall2 isChunkEvent events ps →
    ∃ last,
      processEvents messageId v events
      = (CHAT_STREAM_CHUNK messageId
           <$> distinctFromPredecessor (lastChunkContent v) ps,
         Continue {| newConversationId := newConversationId v;
                     lastChunkContent := last |}).
Proof.
  induction events as [|event events IH]; intros v ps Hev; simpl.
  - apply Forall2_nil_inv_l in Hev as ->. exists (lastChunkContent v).
    by destruct v.
  - apply Forall2_cons_inv_l in Hev as (p & ps' & [Herr Hpay] & Hev & ->).
    unfold handleEvent. rewrite Herr, Hpay. simpl.
    case_decide as Hdup.
    + destruct (IH v ps' Hev) as [last ->]. rewrite <- Hdup. by exists last.
    + destruct (IH {| newConversationId := newConversationId v;
                      lastChunkContent := Some p |} ps' Hev) as [last ->].
      by exists last.
Qed.

(** X25. A [usage] event completes the turn. Over an undisturbed stream of
    chunk events followed by a [usage] event, [processStream] dispatches the
    chunks that differ from their predecessor and then
    [CHAT_STREAM_COMPLETE]; taken by the reducer in a state where the
    message is the streaming one, these intents leave the chat idle with
    the input enabled and no streaming message, record the event's response
    id (keeping the previous one when the event has none), and leave the
    message with the concatenated text, the usage and its duration. *)
Theorem usage_completes_the_turn
    (messageId : string) (currentConversationId : option string)
    (σ : ServiceState) (chunks : list string)
    (events : list SseEvent) (ps : list string) (event : SseEvent)
    (usage : IUsageInfo) (responseId : option string)
    (now : string) (s : AppState) (i : nat) (m : IChatItem) :
  streamCancelled σ = false →
  streamEvents chunks = events ++ [event] →
  Forall2 isChunkEvent events ps →
  truthyError (data_error event) = false →
  payload event = EvUsage usage responseId →
  streamingMessageId (chat s) = Some messageId →
  findIndex messageId (messages (chat s)) = Some (i, m) →
  processStream {| body := Some (valueReads chunks) |}
    messageId currentConversationId σ
  = ((CHAT_STREAM_CHUNK messageId <$> distinctFromPredecessor None ps)
     ++ [CHAT_STREAM_COMPLETE usage responseId], σ, Normal ())
  ∧ chat_status
      (chat (dispatchAll now s
               ((CHAT_STREAM_CHUNK messageId <$> distinctFromPredecessor None ps)
                ++ [CHAT_STREAM_COMPLETE usage responseId]))) = Idle
  ∧ chatInputEnabled
      (ui (dispatchAll now s
             ((CHAT_STREAM_CHUNK messageId <$> distinctFromPredecessor None ps)
              ++ [CHAT_STREAM_COMPLETE usage responseId]))) = true
  ∧ streamingMessageId
      (chat (dispatchAll now s
               ((CHAT_STREAM_CHUNK messageId <$> distinctFromPredecessor None ps)
                ++ [CHAT_STREAM_COMPLETE usage responseId]))) = None
  ∧ lastResponseId
      (chat (dispatchAll now s
               ((CHAT_STREAM_CHUNK messageId <$> distinctFromPredecessor None ps)
                ++ [CHAT_STREAM_COMPLETE usage responseId])))
    = jsOr responseId (lastResponseId (chat s))
  ∧ messages
      (chat (dispatchAll now s
               ((CHAT_STREAM_CHUNK messageId <$> distinctFromPredecessor None ps)
                ++ [CHAT_STREAM_COMPLETE usage responseId]))) !! i
    = Some (withUsage
              (withContent m
                 (msg_content m
                  +:+ concatAll (distinctFromPredecessor None ps)))
              usage).
Proof.
  intros Hflag Hevents Hchunks Herr Hpay Hsid Hfind.
  split.
  { rewrite processStream_events by done. rewrite Hevents, processEvents_app.
    destruct (processEvents_chunks messageId events
                {| newConversationId := currentConversationId;
                   lastChunkContent := None |} ps Hchunks) as [last ->].
    simpl. unfold handleEvent. rewrite Herr, Hpay. by rewrite app_nil_r. }
  rewrite dispatchAll_app.
  destruct (dispatchAll_chunks_state now messageId
              (distinctFromPredecessor None ps) _ _ _ Hfind)
    as (Hm & Hst & Hid & Hui).
  pose proof (dispatchAll_chunks_lastResponseId now messageId
                (distinctFromPredecessor None ps) s) as Hlast.
  pose proof (findIndex_Some _ _ _ _ Hfind) as [Hi Hmid].
  unfold dispatchAll at 1 3 5 7 9. simpl. unfold appReducer. simpl.
  rewrite Hlast, Hm, Hid, Hsid. split_and!; try done.
  rewrite list_lookup_fmap, list_lookup_insert_eq by (by eapply lookup_lt_Some).
  simpl. by rewrite decide_True by (by rewrite Hmid).
Qed.

End Completion.

Lemma usage_completes_the_turn_witness :
  @processStream usageImports {| body := Some (valueReads completedChunks) |}
    "m1" None idleService
  = ((CHAT_STREAM_CHUNK "m1" <$> distinctFromPredecessor None ["Hel"; "Hel"; "lo"])
     ++ [CHAT_STREAM_COMPLETE sampleUsage (Some "resp-7")], idleService,
     Normal ())
  ∧ chat_status
      (chat (dispatchAll "t" streamingState
               ((CHAT_STREAM_CHUNK "m1"
                   <$> distinctFromPredecessor None ["Hel"; "Hel"; "lo"])
                ++ [CHAT_STREAM_COMPLETE sampleUsage (Some "resp-7")]))) = Idle
  ∧ chatInputEnabled
      (ui (dispatchAll "t" streamingState
             ((CHAT_STREAM_CHUNK "m1"
                 <$> distinctFromPredecessor None ["Hel"; "Hel"; "lo"])
              ++ [CHAT_STREAM_COMPLETE sampleUsage (Some "resp-7")]))) = true
  ∧ streamingMessageId
      (chat (dispatchAll "t" streamingState
               ((CHAT_STREAM_CHUNK "m1"
                   <$> distinctFromPredecessor None ["Hel"; "Hel"; "lo"])
                ++ [CHAT_STREAM_COMPLETE sampleUsage (Some "resp-7")]))) = None
  ∧ lastResponseId
      (chat (dispatchAll "t" streamingState
               ((CHAT_STREAM_CHUNK "m1"
                   <$> distinctFromPredecessor None ["Hel"; "Hel"; "lo"])
                ++ [CHAT_STREAM_COMPLETE sampleUsage (Some "resp-7")])))
    = jsOr (Some "resp-7") (lastResponseId (chat streamingState))
  ∧ messages
      (chat (dispatchAll "t" streamingState
               ((CHAT_STREAM_CHUNK "m1"
                   <$> distinctFromPredecessor None ["Hel"; "Hel"; "lo"])
                ++ [CHAT_STREAM_COMPLETE sampleUsage (Some "resp-7")]))) !! 0
    = Some (withUsage
              (withContent (sampleAssistant "m1" "")
                 (msg_content (sampleAssistant "m1" "")
                  +:+ concatAll
                        (distinctFromPredecessor None ["Hel"; "Hel"; "lo"])))
              sampleUsage).
Proof.
  apply (@usage_completes_the_turn usageImports "m1" None idleService
           completedChunks
           [ {| data_error := None; payload := EvChunk "Hel" |};
             {| data_error := None; payload := EvChunk "Hel" |};
             {| data_error := None; payload := EvChunk "lo" |} ]
           ["Hel"; "Hel"; "lo"]
           {| data_error := None;
              payload := EvUsage sampleUsage (Some "resp-7") |}
           sampleUsage (Some "resp-7") "t" streamingState 0
           (sampleAssistant "m1" "")).
  - reflexivity.
  - reflexivity.
  - repeat constructor.
  - reflexivity.
  - reflexivity.
  - reflexivity.
  - reflexivity.
Defined.

(** * A turn keeps its conversation *)

Lemma keepsConversation_step now s c a :
  keepsConversation c a →
  currentConversationId (chat s) = c →
  currentConversationId (chat (appReducer now s a)) = c.
Proof.
  unfold appReducer. intros Hk Hc.
  destruct a as [| | |cid mid|mid content|mid anns| | | | | | |]; simpl in *;
    try done.
  - by rewrite Hc.
  - by destruct (findIndex mid (messages (chat s))) as [[i m]|].
  - by destruct (findIndex mid (messages (chat s))) as [[i m]|].
Qed.

Lemma keepsConversation_all now c (acts : list AppAction) :
  ∀ s,
    Forall (keepsConversation c) acts →
    currentConversationId (chat s) = c →
    currentConversationId (chat (dispatchAll now s acts)) = c.
Proof.
  induction acts as [|a acts IH]; intros s Hall Hc; [done|].
  apply Forall_cons in Hall as [Ha Hall]. rewrite dispatchAll_cons.
  apply IH; [done|]. by apply keepsConversation_step.
Qed.

Section Conversation.
Context `{Imports}.

Lemma handleEvent_keepsConversation c messageId v event acts st :
  handleEvent messageId v event = (acts, st) →
  truthy (newConversationId v) = true →
  Forall (keepsConversation c) acts
  ∧ ∀ v', st = Continue v' → truthy (newConversationId v') = true.
Proof.
  unfold handleEvent. intros Hh Hv.
  destruct (truthyError (data_error event)).
  { simplify_eq. split; [by repeat constructor|done]. }
  destruct (payload event) as [cid|content|[[|a l]|]|[req|]|usage rid| |msg|ty].
  - rewrite Hv in Hh. simplify_eq. split; [done|]. by intros v' [= <-].
  - case_decide; simplify_eq; (split; [by repeat constructor|]);
      by intros v' [= <-].
  - simplify_eq. split; [done|]. by intros v' [= <-].
  - simplify_eq. split; [by repeat constructor|]. by intros v' [= <-].
  - simplify_eq. split; [done|]. by intros v' [= <-].
  - simplify_eq. split; [by repeat constructor|]. by intros v' [= <-].
  - simplify_eq. split; [done|]. by intros v' [= <-].
  - simplify_eq. split; [by repeat constructor|]. by intros v' [= <-].
  - simplify_eq. split; [done|]. done.
  - simplify_eq. split; [by repeat constructor|]. done.
  - simplify_eq. split; [done|]. by intros v' [= <-].
Qed.

Lemma processLines_keepsConversation c messageId (lines : list string) :
  ∀ v acts st,
    processLines messageId v lines = (acts, st) →
    truthy (newConversationId v) = true →
    Forall (keepsConversation c) acts
    ∧ ∀ v', st = Continue v' → truthy (newConversationId v') = true.
Proof.
  induction lines as [|line lines IH]; intros v acts st Hp Hv; simpl in Hp.
  - simplify_eq. split; [done|]. by intros v' [= <-].
  - destruct (parseSseLine line) as [event|]; [|by eapply IH].
    destruct (handleEvent messageId v event) as [acts0 st0] eqn:Hh.
    destruct (handleEvent_keepsConversation c _ _ _ _ _ Hh Hv) as [Ha Hv'].
    destruct st0 as [v'| |e]; simplify_eq; try (split; done).
    destruct (processLines messageId v' lines) as [acts1 st1] eqn:Hrest.
    simplify_eq.
    destruct (IH _ _ _ Hrest (Hv' v' eq_refl)) as [Ha1 Hv1].
    split; [by apply Forall_app|done].
Qed.

Lemma catchBlock_keepsConversation c messageId cur cancelled e :
  Forall (keepsConversation c) (catchBlock messageId cur cancelled e).1.
Proof. unfold catchBlock. case_match; by repeat constructor. Qed.

Lemma iteration_keepsConversation c messageId cur cancelled v buffer r acts st' :
  iteration messageId cur (Running cancelled v buffer) r = (acts, st') →
  truthy (newConversationId v) = true →
  Forall (keepsConversation c) acts
  ∧ ∀ c' v' b', st' = Running c' v' b' → truthy (newConversationId v') = true.
Proof.
  unfold iteration. intros Hi Hv.
  destruct cancelled; simplify_eq/=; [by split|].
  destruct (readResult r) as [chunk|e].
  - destruct (splitSseBuffer (buffer +:+ chunk)) as [lines remaining].
    destruct (processLines messageId v lines) as [acts0 st0] eqn:Hp.
    destruct (processLines_keepsConversation c _ _ _ _ _ Hp Hv) as [Ha Hv'].
    destruct st0 as [v'| |e]; simplify_eq/=.
    + split; [done|]. intros c' v'' b' [= <- <- <-]. by apply Hv'.
    + by split.
    + pose proof (catchBlock_keepsConversation c messageId cur
                    (default false (flagWrite r)) e) as Hc.
      destruct (catchBlock messageId cur (default false (flagWrite r)) e)
        as [acts1 c1].
      simplify_eq/=. split; [by apply Forall_app|done].
  - pose proof (catchBlock_keepsConversation c messageId cur
                  (default false (flagWrite r)) e) as Hc.
    destruct (catchBlock messageId cur (default false (flagWrite r)) e)
      as [acts1 c1].
    by simplify_eq/=.
Qed.

Lemma readLoop_cons messageId cur st r (reads : list ReadStep) :
  readLoop messageId cur st (r :: reads)
  = let '(acts, st') := iteration messageId cur st r in
    let '(acts', st'') := readLoop messageId cur st' reads in
    (acts ++ acts', st'').
Proof. reflexivity. Qed.

Lemma readLoop_keepsConversation c messageId cur (reads : list ReadStep) :
  ∀ cancelled v buffer acts st',
    readLoop messageId cur (Running cancelled v buffer) reads = (acts, st') →
    truthy (newConversationId v) = true →
    Forall (keepsConversation c) acts.
Proof.
  induction reads as [|r reads IH]; intros cancelled v buffer acts st' Hr Hv.
  - simpl in Hr. by simplify_eq.
  - rewrite readLoop_cons in Hr.
    destruct (iteration messageId cur (Running cancelled v buffer) r)
      as [acts0 st0] eqn:Hi.
    destruct (iteration_keepsConversation c _ _ _ _ _ _ _ _ Hi Hv) as [Ha Hv'].
    destruct (readLoop messageId cur st0 reads) as [acts1 st1] eqn:Hrest.
    simplify_eq. apply Forall_app. split; [done|].
    destruct st0 as [c0 v0 b0|c0 r0].
    + eapply IH; [done|]. by eapply Hv'.
    + rewrite readLoop_Exited in Hrest. by simplify_eq.
Qed.

Lemma processStream_keepsConversation c response messageId cur σ acts σ' r :
  processStream response messageId cur σ = (acts, σ', r) →
  truthy cur = true →
  Forall (keepsConversation c) acts.
Proof.
  unfold processStream. intros Hp Hcur.
  destruct response as [[reads|]]; simpl in Hp.
  - unfold loopStart in Hp.
    destruct (readLoop messageId cur _ reads) as [acts0 st] eqn:Hr.
    apply (readLoop_keepsConversation c) in Hr; [|done].
    destruct (loopEnd st). by simplify_eq.
  - unfold mbind, M_bind, bind, dispatch, throw in Hp. simpl in Hp.
    simplify_eq. by repeat constructor.
Qed.

(** X26. A turn keeps its conversation. When the state the UI renders has a
    non-empty conversation id, the intents of a turn started from it by
    [handleSendMessage], taken by the reducer from that state, leave
    [currentConversationId] as it was, whatever the token provider, the
    converter, the request and the stream do: a [conversationId] event of
    the stream does not replace a conversation id that is already known. *)
Theorem turn_keeps_conversation
    (env : Env) (s : AppState) (text : string) (files : option (list File))
    (σ : ServiceState) (now : string) :
  truthy (currentConversationId (chat s)) = true →
  currentConversationId
    (chat (dispatchAll now s (emitted (handleSendMessage env s text files σ))))
  = currentConversationId (chat s).
Proof.
  intros Hcur. apply keepsConversation_all; [|done].
  set (c := currentConversationId (chat s)) in *.
  unfold handleSendMessage. fold c.
  unfold sendMessage, ensureAuthToken, prepareMessagePayload, emitted.
  unfold mbind, M_bind, bind, tryCatch, getCurrentStreamAbort, await, throw,
    dispatch, setStreamCancelled, setCurrentStreamAbort, mret, M_ret, ret.
  assert (jsOr (jsOr c None) c = c) as Hstart.
  { unfold jsOr. by rewrite Hcur, Hcur. }
  destruct σ as [[ctl|] flag]; cbn [currentStreamAbort streamCancelled].
  all: destruct (getAccessToken env) as [token|e]; cbn -[processStream].
  all: try (destruct (truthy token); cbn -[processStream]).
  all: try (destruct files as [[|f fs]|]; cbn -[processStream]).
  all: try (destruct (flagWriteDuringRequest env) as [w|]; cbn -[processStream]).
  all: repeat match goal with
         | |- context [convertFilesToDataUris ?x] =>
             destruct (convertFilesToDataUris x); cbn -[processStream]
         | |- context [initiate ?en ?u ?t ?b] =>
             destruct (initiate en u t b) as [response|e1];
             cbn -[processStream]
         | |- context [processStream ?r ?m ?cur ?st] =>
             let Hp := fresh "Hp" in
             destruct (processStream r m cur st) as [[acts st'] [[]|e2]] eqn:Hp;
             (apply (processStream_keepsConversation c) in Hp; [|exact Hcur]);
             cbn -[processStream]
         | |- context [isAbortError ?x] =>
             destruct (isAbortError x); cbn -[processStream]
         | |- context [isTokenExpiredError ?x] =>
             destruct (isTokenExpiredError x); cbn -[processStream]
         end.
  all: repeat (apply Forall_cons; split; [done|]).
  all: rewrite ?app_nil_r; try done.
  all: apply Forall_app; split; [done|].
  all: by repeat (apply Forall_cons; split; [done|]).
Qed.

End Conversation.

Lemma turn_keeps_conversation_witness :
  currentConversationId
    (chat (dispatchAll "t" sampleState
             (emitted (handleSendMessage tokenEnv sampleState "Hi" None
                         idleService))))
  = currentConversationId (chat sampleState).
Proof.
  apply (turn_keeps_conversation tokenEnv sampleState "Hi" None idleService "t").
  reflexivity.
Defined.

Section NewConversation.
Context `{Imports}.

Lemma processEvents_keepsConversation c messageId (events : list SseEvent) :
  ∀ v acts st,
    processEvents messageId v events = (acts, st) →
    truthy (newConversationId v) = true →
    Forall (keepsConversation c) acts.
Proof.
  induction events as [|event events IH]; intros v acts st Hp Hv; simpl in Hp.
  - by simplify_eq.
  - destruct (handleEvent messageId v event) as [acts0 st0] eqn:Hh.
    destruct (handleEvent_keepsConversation c _ _ _ _ _ Hh Hv) as [Ha Hv'].
    destruct st0 as [v'| |e]; simplify_eq; try done.
    destruct (processEvents messageId v' events) as [acts1 st1] eqn:Hrest.
    simplify_eq. apply Forall_app. split; [done|].
    eapply IH; [done|]. by apply Hv'.
Qed.

(** X27. A new conversation adopts the id the stream announces. When
    [processStream] is called without a conversation id and the first event
    of an undisturbed stream is a [conversationId] event with a non-empty
    id, the intents of the stream, taken by the reducer from any state,
    leave [currentConversationId] equal to that id, whatever events follow
    (later [conversationId] events included). *)
Theorem stream_announces_conversation
    (messageId : string) (currentConversationId' : option string)
    (σ : ServiceState) (chunks : list string)
    (event : SseEvent) (events : list SseEvent) (c : string)
    (now : string) (s : AppState) :
  streamCancelled σ = false →
  truthy currentConversationId' = false →
  streamEvents chunks = event :: events →
  truthyError (data_error event) = false →
  payload event = EvConversationId (Some c) →
  c ≠ "" →
  currentConversationId
    (chat (dispatchAll now s
             (emitted (processStream {| body := Some (valueReads chunks) |}
                         messageId currentConversationId' σ))))
  = Some c.
Proof.
  intros Hflag Hcur Hevents Herr Hpay Hc.
  assert (truthy (Some c) = true) as Htruthy.
  { simpl. by rewrite decide_False. }
  rewrite processStream_events by done. rewrite Hevents. simpl.
  unfold handleEvent. rewrite Herr, Hpay. simpl. rewrite Hcur.
  destruct (processEvents messageId
              {| newConversationId := Some c; lastChunkContent := None |}
              events) as [acts st] eqn:Hrest.
  apply (processEvents_keepsConversation (Some c)) in Hrest; [|done].
  assert (∀ more,
            Forall (keepsConversation (Some c)) more →
            currentConversationId
              (chat (dispatchAll now s
                       (CHAT_START_STREAM (Some c) messageId :: more)))
            = Some c) as Hall.
  { intros more Hmore. rewrite dispatchAll_cons.
    apply keepsConversation_all; [done|].
    unfold appReducer. simpl. unfold jsOr. by rewrite Htruthy. }
  destruct st as [v'| |e]; unfold emitted; simpl; try by apply Hall.
  apply Hall. apply Forall_app. split; [done|].
  apply catchBlock_keepsConversation.
Qed.

End NewConversation.

Lemma stream_announces_conversation_witness :
  currentConversationId
    (chat (dispatchAll "t" streamingState
             (emitted (processStream {| body := Some (valueReads approvalChunks) |}
                         "m1" None idleService))))
  = Some "conv-9".
Proof.
  apply (stream_announces_conversation "m1" None idleService approvalChunks
           {| data_error := None; payload := EvConversationId (Some "conv-9") |}
           [ {| data_error := None; payload := EvChunk "Hi" |};
             {| data_error := None;
                payload := EvMcpApprovalRequest (Some sampleRequest) |} ]
           "conv-9" "t" streamingState).
  - reflexivity.
  - reflexivity.
  - reflexivity.
  - reflexivity.
  - reflexivity.
  - discriminate.
Defined.

(** ** Chunks among the other events of a stream *)

Lemma chunkIntents_app (l k : list AppAction) :
  chunkIntents (l ++ k) = chunkIntents l ++ chunkIntents k.
Proof. apply filter_app. Qed.

Lemma chunkContent_chunkIntents (acts : list AppAction) :
  omap chunkContent (chunkIntents acts) = omap chunkContent acts.
Proof.
  induction acts as [|a acts IH]; [done|].
  unfold chunkIntents in *. rewrite filter_cons.
  destruct (decide (actionType a = "CHAT_STREAM_CHUNK")) as [Ha|Ha].
  - destruct a; try done. simpl. f_equal. exact IH.
  - rewrite IH. by destruct a.
Qed.

Lemma chunkContent_chunks messageId (l : list string) :
  omap chunkContent (CHAT_STREAM_CHUNK messageId <$> l) = l.
Proof. induction l as [|p l IH]; [done|]. simpl. f_equal. exact IH. Qed.

Lemma findIndex_app_l messageId (msgs more : list IChatItem) i m :
  findIndex messageId msgs = Some (i, m) →
  findIndex messageId (msgs ++ more) = Some (i, m).
Proof.
  unfold findIndex. intros Hf. apply list_find_app_Some. by left.
Qed.

Lemma findIndex_fmap_Some messageId (f : IChatItem → IChatItem)
    (msgs : list IChatItem) i m :
  (∀ x, msg_id (f x) = msg_id x) →
  findIndex messageId msgs = Some (i, m) →
  findIndex messageId (f <$> msgs) = Some (i, f m).
Proof.
  unfold findIndex. intros Hf Hm.
  apply list_find_Some in Hm as (Hi & Hid & Hleast).
  apply list_find_Some. split_and!.
  - by rewrite list_lookup_fmap, Hi.
  - by rewrite Hf.
  - intros j y Hj Hlt. rewrite list_lookup_fmap in Hj.
    destruct (msgs !! j) as [x|] eqn:Hx; simplify_eq/=.
    rewrite Hf. by eapply Hleast.
Qed.

(** The reducer, taking intents of a stream for a message that exists,
    keeps the message where it is and appends to its content the payloads
    of the chunk intents among them, in order; no other intent of the
    stream touches the content. *)
Lemma dispatchAll_streamIntents now messageId (acts : list AppAction) :
  ∀ s i m,
    Forall (streamIntent messageId) acts →
    findIndex messageId (messages (chat s)) = Some (i, m) →
    ∃ m',
      findIndex messageId (messages (chat (dispatchAll now s acts)))
      = Some (i, m')
      ∧ msg_content m' = msg_content m +:+ concatAll (omap chunkContent acts).
Proof.
  induction acts as [|a acts IH]; intros s i m Hall Hf.
  - exists m. split; [done|]. simpl. by rewrite string_app_empty_r.
  - apply Forall_cons in Hall as [Ha Hall]. rewrite dispatchAll_cons.
    destruct a as [| | |conversationId mid|mid content|mid annotations
                   |mid request previous|usage responseId| |error| | |];
      simpl in Ha; try done.
    + apply (IH _ i m Hall). exact Hf.
    + subst mid.
      destruct (IH (appReducer now s (CHAT_STREAM_CHUNK messageId content)) i
                  (withContent m (msg_content m +:+ content)) Hall)
        as (m' & Hm' & Hc).
      { unfold appReducer, appReducerRef. rewrite Hf. simpl.
        apply (findIndex_insert _ _ _ m); [done|].
        by apply findIndex_Some in Hf as [_ Hid]. }
      exists m'. split; [done|]. rewrite Hc.
      change (omap chunkContent (CHAT_STREAM_CHUNK messageId content :: acts))
        with (content :: omap chunkContent acts).
      by rewrite concatAll_cons, <- string_app_assoc.
    + subst mid.
      destruct (IH (appReducer now s (CHAT_STREAM_ANNOTATIONS messageId annotations))
                  i (withAnnotations m
                       (default [] (msg_annotations m) ++ annotations)) Hall)
        as (m' & Hm' & Hc).
      { unfold appReducer, appReducerRef. rewrite Hf. simpl.
        apply (findIndex_insert _ _ _ m); [done|].
        by apply findIndex_Some in Hf as [_ Hid]. }
      exists m'. by split.
    + apply (IH _ i m Hall). unfold appReducer. simpl.
      by apply findIndex_app_l.
    + destruct (IH (appReducer now s (CHAT_STREAM_COMPLETE usage responseId)) i
                  (if decide (Some (msg_id m) = streamingMessageId (chat s))
                   then withUsage m usage else m) Hall)
        as (m' & Hm' & Hc).
      { unfold appReducer. simpl.
        apply (findIndex_fmap_Some _
                 (λ msg, if decide (Some (msg_id msg) = streamingMessageId (chat s))
                         then withUsage msg usage else msg)); [|done].
        intros x. destruct (decide _); [by destruct x|done]. }
      exists m'. split; [done|]. rewrite Hc. simpl.
      destruct (decide _); [by destruct m|done].
    + apply (IH _ i m Hall). exact Hf.
Qed.

Section ChunkContent.
Context `{Imports}.

(** What the [for] loop dispatches as chunk intents over any events: one
    per chunk payload, up to the event that stops the stream, that differs
    from the chunk payload before it. Events of other types neither
    dispatch a chunk intent nor change what the next chunk is compared
    with. *)
Lemma processEvents_chunkIntents messageId (events : list SseEvent) :
  ∀ v acts st,
    processEvents messageId v events = (acts, st) →
    chunkIntents acts
    = CHAT_STREAM_CHUNK messageId
      <$> distinctFromPredecessor (lastChunkContent v) (chunkPayloads events).
Proof.
  induction events as [|event events IH]; intros v acts st Hp.
  - simpl in Hp. by simplify_eq.
  - simpl in Hp. simpl. unfold stopsStream. unfold handleEvent in Hp.
    destruct (truthyError (data_error event)) eqn:Herr; simpl.
    { by simplify_eq. }
    destruct (payload event)
      as [conversationId|content|annotations|request|usage responseId
         | |message|other] eqn:Hpay.
    + destruct (truthy (newConversationId v)).
      * destruct (processEvents messageId v events) as [acts1 st1] eqn:Hrest.
        simplify_eq. simpl. by eapply IH.
      * destruct (processEvents messageId _ events) as [acts1 st1] eqn:Hrest.
        simplify_eq. apply IH in Hrest. simpl in Hrest.
        rewrite chunkIntents_app. exact Hrest.
    + destruct (decide (Some content = lastChunkContent v)) as [Heq|Hne].
      * destruct (processEvents messageId v events) as [acts1 st1] eqn:Hrest.
        simplify_eq. simpl. apply IH in Hrest.
        rewrite decide_True by done. by rewrite <- Heq in Hrest.
      * destruct (processEvents messageId _ events) as [acts1 st1] eqn:Hrest.
        simplify_eq. apply IH in Hrest. simpl in Hrest.
        rewrite chunkIntents_app, Hrest. simpl. by rewrite decide_False by done.
    + destruct annotations as [[|a l]|].
      * destruct (processEvents messageId v events) as [acts1 st1] eqn:Hrest.
        simplify_eq. simpl. by eapply IH.
      * destruct (processEvents messageId v events) as [acts1 st1] eqn:Hrest.
        simplify_eq. rewrite chunkIntents_app. simpl. by eapply IH.
      * destruct (processEvents messageId v events) as [acts1 st1] eqn:Hrest.
        simplify_eq. simpl. by eapply IH.
    + destruct request as [approvalRequest|].
      * destruct (processEvents messageId v events) as [acts1 st1] eqn:Hrest.
        simplify_eq. rewrite chunkIntents_app. simpl. by eapply IH.
      * destruct (processEvents messageId v events) as [acts1 st1] eqn:Hrest.
        simplify_eq. simpl. by eapply IH.
    + destruct (processEvents messageId v events) as [acts1 st1] eqn:Hrest.
      simplify_eq. rewrite chunkIntents_app. simpl. by eapply IH.
    + by simplify_eq.
    + by simplify_eq.
    + destruct (processEvents messageId v events) as [acts1 st1] eqn:Hrest.
      simplify_eq. simpl. by eapply IH.
Qed.

Lemma catchBlock_chunkIntents messageId cur cancelled e :
  chunkIntents (catchBlock messageId cur cancelled e).1 = [].
Proof. unfold catchBlock. by destruct (isAbortError e && cancelled). Qed.

(** The same over the reads of a body: the chunk intents of the loop are
    those of the events its lines parse to. *)
Lemma readLoop_chunkIntents messageId cur (reads : list ReadStep) :
  ∀ cancelled v buffer acts st,
    readLoop messageId cur (Running cancelled v buffer) reads = (acts, st) →
    chunkIntents acts
    = CHAT_STREAM_CHUNK messageId
      <$> distinctFromPredecessor (lastChunkContent v)
            (chunkPayloads
               (omap parseSseLine (readLines cancelled buffer reads))).
Proof.
  induction reads as [|r reads IH]; intros cancelled v buffer acts st Hr.
  - simpl in Hr. by simplify_eq.
  - rewrite readLoop_cons in Hr. simpl.
    destruct cancelled; simpl in Hr.
    { rewrite readLoop_Exited in Hr. by simplify_eq. }
    destruct (readResult r) as [chunk|e].
    + destruct (splitSseBuffer (buffer +:+ chunk)) as [lines remaining].
      rewrite processLines_events in Hr.
      rewrite omap_app.
      pose proof (processEvents_app messageId (omap parseSseLine lines)
                    (omap parseSseLine
                       (readLines (default false (flagWrite r)) remaining reads))
                    v) as Happ.
      destruct (processEvents messageId v (omap parseSseLine lines))
        as [acts0 [v'| |e]] eqn:Hp.
      * destruct (readLoop messageId cur
                    (Running (default false (flagWrite r)) v' remaining) reads)
          as [acts1 st1] eqn:Hrest.
        simplify_eq. apply IH in Hrest.
        destruct (processEvents messageId v'
                    (omap parseSseLine
                       (readLines (default false (flagWrite r)) remaining reads)))
          as [acts2 st2] eqn:Hp2.
        apply processEvents_chunkIntents in Happ.
        apply processEvents_chunkIntents in Hp2.
        rewrite <- Happ, !chunkIntents_app. by rewrite Hrest, Hp2.
      * rewrite readLoop_Exited in Hr. simplify_eq.
        apply processEvents_chunkIntents in Happ.
        by rewrite app_nil_r.
      * destruct (catchBlock messageId cur (default false (flagWrite r)) e)
          as [acts' c] eqn:Hc.
        rewrite readLoop_Exited in Hr. simplify_eq.
        apply processEvents_chunkIntents in Happ.
        rewrite app_nil_r, chunkIntents_app, Happ.
        pose proof (catchBlock_chunkIntents messageId cur
                      (default false (flagWrite r)) e) as Hnone.
        rewrite Hc in Hnone. simpl in Hnone. by rewrite Hnone, app_nil_r.
    + destruct (catchBlock messageId cur (default false (flagWrite r)) e)
        as [acts' c] eqn:Hc.
      rewrite readLoop_Exited in Hr. simplify_eq.
      pose proof (catchBlock_chunkIntents messageId cur
                    (default false (flagWrite r)) e) as Hnone.
      rewrite Hc in Hnone. simpl in Hnone. by rewrite app_nil_r.
Qed.

(** C1. Whatever a stream delivers -- chunks between events of other types,
    lines cut anywhere by the reads, a stream that ends by [done], by an
    error, by a cancel or by running out -- the [CHAT_STREAM_CHUNK] intents
    [processStream] dispatches are, in arrival order, those for the chunk
    payloads handled that differ from the chunk payload immediately before
    them (the first is always kept; an event of another type in between
    does not make two equal payloads distinct); and the reducer, taking all
    the intents of the stream, appends exactly those payloads, in that
    order, to the content of the target message, which stays at its index. *)
Theorem chunk_stream_final_content
    (messageId : string) (currentConversationId : option string)
    (σ : ServiceState) (reads : list ReadStep)
    (now : string) (s : AppState) (i : nat) (m : IChatItem) :
  findIndex messageId (messages (chat s)) = Some (i, m) →
  chunkIntents
    (emitted (processStream {| body := Some reads |} messageId
                currentConversationId σ))
  = CHAT_STREAM_CHUNK messageId
    <$> distinctFromPredecessor None
          (chunkPayloads
             (omap parseSseLine (readLines (streamCancelled σ) "" reads)))
  ∧ ∃ m',
      findIndex messageId
        (messages
           (chat (dispatchAll now s
                    (emitted (processStream {| body := Some reads |} messageId
                                currentConversationId σ)))))
      = Some (i, m')
      ∧ msg_content m'
        = msg_content m
          +:+ concatAll
                (distinctFromPredecessor None
                   (chunkPayloads
                      (omap parseSseLine
                         (readLines (streamCancelled σ) "" reads)))).
Proof.
  intros Hf. unfold processStream, emitted. simpl.
  destruct (readLoop messageId currentConversationId
              (loopStart (streamCancelled σ) currentConversationId) reads)
    as [acts st] eqn:Hr.
  pose proof (readLoop_streamIntent _ _ _ _ _ _ Hr) as Hall.
  apply readLoop_chunkIntents in Hr. simpl in Hr.
  destruct (loopEnd st) as [cancelled r]. simpl.
  split; [exact Hr|].
  destruct (dispatchAll_streamIntents now messageId acts s i m Hall Hf)
    as (m' & Hm' & Hc).
  exists m'. split; [done|].
  by rewrite Hc, <- chunkContent_chunkIntents, Hr, chunkContent_chunks.
Qed.

End ChunkContent.

Lemma chunk_stream_final_content_witness :
  chunkIntents
    (emitted (processStream {| body := Some (valueReads mixedChunks) |} "m1"
                None idleService))
  = [CHAT_STREAM_CHUNK "m1" "Hel"; CHAT_STREAM_CHUNK "m1" "lo"]
  ∧ ∃ m',
      findIndex "m1"
        (messages
           (chat (dispatchAll "t" streamingState
                    (emitted (processStream
                                {| body := Some (valueReads mixedChunks) |}
                                "m1" None idleService)))))
      = Some (0, m')
      ∧ msg_content m' = msg_content (sampleAssistant "m1" "") +:+ "Hello".
Proof.
  exact (chunk_stream_final_content "m1" None idleService
           (valueReads mixedChunks) "t" streamingState 0
           (sampleAssistant "m1" "") eq_refl).
Defined.

(** ** cancelStream and the stream in flight *)

Section Cancel.
Context `{Imports}.

(** Once the flag is seen set at the head of the loop, nothing is read and
    nothing dispatched, and the loop is left normally. *)
Lemma readLoop_cancelled messageId cur v buffer (reads : list ReadStep) :
  ∃ st,
    readLoop messageId cur (Running true v buffer) reads = ([], st)
    ∧ loopEnd st = (true, Normal ()).
Proof.
  destruct reads as [|r reads]; simpl; [by eexists|].
  rewrite readLoop_Exited. by eexists.
Qed.

(** X22. Cancelling a stream in flight. With a controller installed,
    [cancelStream] sets the flag, aborts the controller and dispatches
    [CHAT_CANCEL_STREAM]. The stream loop is then suspended in a read, and
    that pending read is not dropped: when it delivers a value its lines are
    still handled and their intents dispatched, when it rejects the [catch]
    block runs with the flag set (so an abort error is swallowed without an
    intent and the call returns normally). Only after it does the loop see
    the flag: no later read is issued, whatever the body still holds. The
    reducer, taking [CHAT_CANCEL_STREAM], returns the chat to idle with the
    input enabled and no streaming message, keeping messages and error. *)
Theorem cancel_lets_pending_read_through
    (σ σ0 : ServiceState) (ctl : AbortController)
    (messageId : string) (currentConversationId : option string)
    (pre rest : list ReadStep) (r : ReadStep)
    (acts : list AppAction) (v : LoopVars) (buffer : string)
    (now : string) (s : AppState) :
  currentStreamAbort σ = Some ctl →
  readLoop messageId currentConversationId
    (loopStart (streamCancelled σ0) currentConversationId) pre
  = (acts, Running false v buffer) →
  flagWrite r = Some true →
  cancelStream σ
  = ([CHAT_CANCEL_STREAM],
     {| currentStreamAbort := Some {| aborted := true |};
        streamCancelled := true |},
     Normal ())
  ∧ (emitted (processStream {| body := Some (pre ++ r :: rest) |} messageId
                currentConversationId σ0),
     completion (processStream {| body := Some (pre ++ r :: rest) |} messageId
                   currentConversationId σ0))
    = match readResult r with
      | ReadValue chunk =>
          match processLines messageId v
                  (splitSseBuffer (buffer +:+ chunk)).1 with
          | (acts', Throw e) =>
              (acts ++ acts'
                 ++ (catchBlock messageId currentConversationId true e).1,
               (catchBlock messageId currentConversationId true e).2)
          | (acts', _) => (acts ++ acts', Normal ())
          end
      | ReadThrows e =>
          (acts ++ (catchBlock messageId currentConversationId true e).1,
           (catchBlock messageId currentConversationId true e).2)
      end
  ∧ (∀ e, readResult r = ReadThrows e → isAbortError e = true →
       emitted (processStream {| body := Some (pre ++ r :: rest) |} messageId
                  currentConversationId σ0) = acts
       ∧ completion (processStream {| body := Some (pre ++ r :: rest) |}
                       messageId currentConversationId σ0) = Normal ())
  ∧ streamCancelled
      (finalState (processStream {| body := Some (pre ++ r :: rest) |}
                     messageId currentConversationId σ0)) = true
  ∧ chat_status (chat (dispatchAll now s (emitted (cancelStream σ)))) = Idle
  ∧ streamingMessageId (chat (dispatchAll now s (emitted (cancelStream σ))))
    = None
  ∧ chatInputEnabled (ui (dispatchAll now s (emitted (cancelStream σ)))) = true
  ∧ messages (chat (dispatchAll now s (emitted (cancelStream σ))))
    = messages (chat s)
  ∧ chat_error (chat (dispatchAll now s (emitted (cancelStream σ))))
    = chat_error (chat s).
Proof.
  intros Hctl Hpre Hflag.
  assert (cancelStream σ
          = ([CHAT_CANCEL_STREAM],
             {| currentStreamAbort := Some {| aborted := true |};
                streamCancelled := true |},
             Normal ())) as Hcancel.
  { destruct σ as [c flag]. simpl in Hctl. by subst c. }
  rewrite Hcancel.
  assert (∀ st0 acts0,
            iteration messageId currentConversationId (Running false v buffer) r
            = (acts0, st0) →
            processStream {| body := Some (pre ++ r :: rest) |} messageId
              currentConversationId σ0
            = (acts ++ acts0,
               {| currentStreamAbort := currentStreamAbort σ0;
                  streamCancelled := true |},
               (loopEnd st0).2)
              ∧ (loopEnd st0).1 = true) as Hrun.
  { intros st0 acts0 Hi. unfold processStream. simpl.
    rewrite readLoop_app, Hpre, readLoop_cons, Hi.
    unfold iteration in Hi. rewrite Hflag in Hi. simpl in Hi.
    destruct (readResult r) as [chunk|e].
    - destruct (splitSseBuffer (buffer +:+ chunk)) as [lines remaining].
      destruct (processLines messageId v lines) as [acts' [v'| |e]].
      + simplify_eq.
        destruct (readLoop_cancelled messageId currentConversationId v'
                    remaining rest) as (st1 & -> & Hend).
        rewrite Hend. simpl. by rewrite app_nil_r.
      + simplify_eq. rewrite readLoop_Exited. simpl. by rewrite app_nil_r.
      + destruct (catchBlock messageId currentConversationId true e) as [a c].
        simplify_eq. rewrite readLoop_Exited. simpl. by rewrite app_nil_r.
    - destruct (catchBlock messageId currentConversationId true e) as [a c].
      simplify_eq. rewrite readLoop_Exited. simpl. by rewrite app_nil_r. }
  destruct (iteration messageId currentConversationId (Running false v buffer) r)
    as [acts0 st0] eqn:Hi.
  destruct (Hrun _ _ eq_refl) as [Hp Hend]. rewrite Hp.
  unfold emitted, completion, finalState. simpl.
  unfold iteration in Hi. rewrite Hflag in Hi. simpl in Hi.
  split_and!; try done.
  - destruct (readResult r) as [chunk|e].
    + destruct (splitSseBuffer (buffer +:+ chunk)) as [lines remaining]. simpl.
      destruct (processLines messageId v lines) as [acts' [v'| |e]].
      * by simplify_eq.
      * by simplify_eq.
      * destruct (catchBlock messageId currentConversationId true e) as [a c].
        by simplify_eq.
    + destruct (catchBlock messageId currentConversationId true e) as [a c].
      by simplify_eq.
  - intros e He Habort. rewrite He in Hi. unfold catchBlock in Hi.
    rewrite Habort in Hi. simpl in Hi. simplify_eq. by rewrite app_nil_r.
Qed.

End Cancel.

Lemma cancel_lets_pending_read_through_witness :
  cancelStream busyService
  = ([CHAT_CANCEL_STREAM],
     {| currentStreamAbort := Some {| aborted := true |};
        streamCancelled := true |},
     Normal ())
  ∧ (emitted (processStream {| body := Some cancelledReads |} "m1" None
                busyService),
     completion (processStream {| body := Some cancelledReads |} "m1" None
                   busyService))
    = ([CHAT_STREAM_CHUNK "m1" "A"; CHAT_STREAM_CHUNK "m1" "B"], Normal ())
  ∧ (∀ e,
       ReadValue ("cB" +:+ LF) = ReadThrows e → isAbortError e = true →
       emitted (processStream {| body := Some cancelledReads |} "m1" None
                  busyService) = [CHAT_STREAM_CHUNK "m1" "A"]
       ∧ completion (processStream {| body := Some cancelledReads |} "m1" None
                       busyService) = Normal ())
  ∧ streamCancelled
      (finalState (processStream {| body := Some cancelledReads |} "m1" None
                     busyService)) = true
  ∧ chat_status
      (chat (dispatchAll "t" streamingState (emitted (cancelStream busyService))))
    = Idle
  ∧ streamingMessageId
      (chat (dispatchAll "t" streamingState (emitted (cancelStream busyService))))
    = None
  ∧ chatInputEnabled
      (ui (dispatchAll "t" streamingState (emitted (cancelStream busyService))))
    = true
  ∧ messages
      (chat (dispatchAll "t" streamingState (emitted (cancelStream busyService))))
    = messages (chat streamingState)
  ∧ chat_error
      (chat (dispatchAll "t" streamingState (emitted (cancelStream busyService))))
    = chat_error (chat streamingState).
Proof.
  exact (cancel_lets_pending_read_through busyService busyService
           {| aborted := false |} "m1" None
           [ {| flagWrite := None; readResult := ReadValue ("cA" +:+ LF) |} ]
           [ {| flagWrite := None; readResult := ReadValue ("cC" +:+ LF) |} ]
           {| flagWrite := Some true; readResult := ReadValue ("cB" +:+ LF) |}
           [CHAT_STREAM_CHUNK "m1" "A"]
           {| newConversationId := None; lastChunkContent := Some "A" |} ""
           "t" streamingState eq_refl eq_refl eq_refl).
Defined.

(** ** StarterMessages *)

